(** * Mayo: typed properties, settings registry and DXF import callbacks

    A shallow embedding of
    - [src/base/property.h] and [src/base/property_builtins.h]
      (the value-write protocol, scalar constraints, quantities, variants),
    - [src/base/settings.h] (the Group / Section / Setting registry),
    - the DXF reader callbacks of [io_dxf.cpp],
    followed by the properties established about them.

    A C++ [double] is a binary64 primitive float, an [int] is a [Z], a
    [std::string], [QByteArray] or [TextId] key is a [string]. *)

From Stdlib Require Import ZArith String List Bool Lia Floats.
From stdpp Require Import gmap strings.

Module Mayo.

(** ** [Result<void>] (result.h): success, or failure with an error text. *)

Inductive Result : Type :=
| Result_ok
| Result_error (errorText : string).

Definition Result_valid (r : Result) : bool :=
  match r with
  | Result_ok => true
  | Result_error _ => false
  end.

(** ** Member functions as state transformers

    A member function run on an object of type [P] returns its value, the
    object afterwards and the calls it made, in order, to the protected
    members [Property::isValid] and [Property::notifyChanged]; the bodies of
    both are in property.cpp. *)

Inductive Call : Type :=
| Call_isValid
| Call_notifyChanged.

Definition Method (P A : Type) : Type := P -> A * P * list Call.

Definition ret {P A : Type} (a : A) : Method P A :=
  fun p => (a, p, []).

Definition bind {P A B : Type} (m : Method P A) (k : A -> Method P B) : Method P B :=
  fun p =>
    let '(a, p1, c1) := m p in
    let '(b, p2, c2) := k a p1 in
    (b, p2, c1 ++ c2).

Definition read {P A : Type} (f : P -> A) : Method P A :=
  fun p => (f p, p, []).

Definition modify {P : Type} (f : P -> P) : Method P unit :=
  fun p => (tt, f p, []).

Definition call {P : Type} (c : Call) : Method P unit :=
  fun p => (tt, p, [c]).

Declare Scope method_scope.
Delimit Scope method_scope with method.
Notation "x <- m ;; k" := (bind m (fun x => k))
  (at level 20, m at level 99, k at level 200, only parsing) : method_scope.
Notation "m ;; k" := (bind m (fun _ => k))
  (at level 100, k at level 200, right associativity, only parsing) : method_scope.
Local Open Scope method_scope.

Definition returned {P A : Type} (r : A * P * list Call) : A := fst (fst r).
Definition object {P A : Type} (r : A * P * list Call) : P := snd (fst r).
Definition calls {P A : Type} (r : A * P * list Call) : list Call := snd r.

(** A [T* ptrValue] into the object [P]: reading and writing the member it
    points to.  Writing then reading gives what was written, and writing
    back what was there before a write undoes that write. *)

Record Cell (P T : Type) : Type := {
  load : P -> T;
  store : T -> P -> P;
  load_store : forall v p, load (store v p) = v;
  store_back : forall v p, store (load p) (store v p) = p
}.
Arguments load {P T} _ _.
Arguments store {P T} _ _ _.

(** ** [Property::setValueHelper] (property.h, "Implementation")

    [hasGroup] and [isValid] are the const members of [Property] declared in
    property.h; their bodies are not part of the header, so the write
    protocol is stated for any of them.  [isValid] sees the whole object,
    the freshly written value included. *)

Section WriteProtocol.
Context {P T : Type}.
Variable hasGroup : P -> bool.
Variable isValid : P -> Result.
Variable ptrValue : Cell P T.

Definition setValueHelper (newValue : T) : Method P Result :=
  hg <- read hasGroup ;;
  if hg then
    previousValue <- read (load ptrValue) ;;
    modify (store ptrValue newValue) ;;
    result <- (call Call_isValid ;; read isValid) ;;
    if Result_valid result then
      call Call_notifyChanged ;;
      ret result
    else
      modify (store ptrValue previousValue) ;;
      ret result
  else
    modify (store ptrValue newValue) ;;
    call Call_notifyChanged ;;
    ret Result_ok.

End WriteProtocol.

(** ** [Property] (property.h)

    The members of the base class.  [m_group] is the non-owning
    [PropertyGroup* const]; [None] is [nullptr]. *)

Definition GroupPtr : Type := positive.

Record Property : Type := {
  m_group : option GroupPtr;
  m_name : string;
  m_description : string;
  m_isUserReadOnly : bool;
  m_isUserVisible : bool;
  m_isEnabled : bool
}.

(** [Property::Property(group, name)] with the default member initialisers
    of the class. *)
Definition Property_new (group : option GroupPtr) (name : string) : Property :=
  {| m_group := group; m_name := name; m_description := EmptyString;
     m_isUserReadOnly := false; m_isUserVisible := true; m_isEnabled := true |}.

(** ** [QVariant]

    Qt's boxed value.  What the properties use of it, per boxed type [T]:
    [QVariant::fromValue], [QVariant::canConvert<T>()] and
    [QVariant::value<T>()]. *)

Class QMetaType (QVariant T : Type) : Type := {
  QVariant_fromValue : T -> QVariant;
  QVariant_canConvert : QVariant -> bool;
  QVariant_value : QVariant -> T
}.

(** ** [GenericProperty<T>] *)

Record GenericProperty (T : Type) : Type := {
  gp_base : Property;
  m_value : T
}.
Arguments gp_base {T} _.
Arguments m_value {T} _.

(** [GenericProperty(grp, name)]: [T m_value = {}], the value-initialised
    [T], is [init]. *)
Definition GenericProperty_new {T : Type} (init : T) (grp : option GroupPtr) (name : string)
  : GenericProperty T :=
  {| gp_base := Property_new grp name; m_value := init |}.

Definition set_m_value {T : Type} (v : T) (p : GenericProperty T) : GenericProperty T :=
  {| gp_base := gp_base p; m_value := v |}.

Lemma set_m_value_back {T : Type} (v : T) (p : GenericProperty T) :
  set_m_value (m_value p) (set_m_value v p) = p.
Proof. destruct p; reflexivity. Qed.

(** [&m_value] *)
Definition ptr_m_value {T : Type} : Cell (GenericProperty T) T :=
  {| load := m_value; store := set_m_value;
     load_store := fun _ _ => eq_refl; store_back := set_m_value_back |}.

Section GenericProperty.
Context {T QVariant : Type} `{QMetaType QVariant T}.
Variable hasGroup : Property -> bool.
Variable isValid : GenericProperty T -> Result.

Definition value (p : GenericProperty T) : T := m_value p.

Definition setValue (val : T) : Method (GenericProperty T) Result :=
  setValueHelper (fun p => hasGroup (gp_base p)) isValid ptr_m_value val.

Definition valueAsVariant (p : GenericProperty T) : QVariant :=
  QVariant_fromValue (value p).

Definition setValueFromVariant (variant : QVariant) : Method (GenericProperty T) Result :=
  if QVariant_canConvert (T := T) variant then
    setValue (QVariant_value variant)
  else
    ret (Result_error "Incompatible type").

End GenericProperty.

(** ** [PropertyScalarConstraints<T>] *)

Record PropertyScalarConstraints (T : Type) : Type := {
  m_minimum : T;
  m_maximum : T;
  m_singleStep : T;
  m_constraintsEnabled : bool
}.
Arguments m_minimum {T} _.
Arguments m_maximum {T} _.
Arguments m_singleStep {T} _.
Arguments m_constraintsEnabled {T} _.

Section PropertyScalarConstraints.
Context {T : Type}.

(** [PropertyScalarConstraints() = default]: only [m_constraintsEnabled]
    has an initialiser; the three scalars are left with whatever values
    [indeterminate] they happen to hold. *)
Definition PropertyScalarConstraints_default (indeterminate : T * T * T)
  : PropertyScalarConstraints T :=
  {| m_minimum := fst (fst indeterminate);
     m_maximum := snd (fst indeterminate);
     m_singleStep := snd indeterminate;
     m_constraintsEnabled := false |}.

(** [PropertyScalarConstraints(minimum, maximum, singleStep)] *)
Definition PropertyScalarConstraints_new (minimum maximum singleStep : T)
  : PropertyScalarConstraints T :=
  {| m_minimum := minimum; m_maximum := maximum; m_singleStep := singleStep;
     m_constraintsEnabled := true |}.

Definition constraintsEnabled (c : PropertyScalarConstraints T) : bool :=
  m_constraintsEnabled c.
Definition minimum (c : PropertyScalarConstraints T) : T := m_minimum c.
Definition maximum (c : PropertyScalarConstraints T) : T := m_maximum c.
Definition singleStep (c : PropertyScalarConstraints T) : T := m_singleStep c.

Definition setConstraintsEnabled (on : bool) : Method (PropertyScalarConstraints T) unit :=
  modify (fun c => {| m_minimum := m_minimum c; m_maximum := m_maximum c;
                      m_singleStep := m_singleStep c; m_constraintsEnabled := on |}).

Definition setMinimum (val : T) : Method (PropertyScalarConstraints T) unit :=
  modify (fun c => {| m_minimum := val; m_maximum := m_maximum c;
                      m_singleStep := m_singleStep c;
                      m_constraintsEnabled := m_constraintsEnabled c |}).

Definition setMaximum (val : T) : Method (PropertyScalarConstraints T) unit :=
  modify (fun c => {| m_minimum := m_minimum c; m_maximum := val;
                      m_singleStep := m_singleStep c;
                      m_constraintsEnabled := m_constraintsEnabled c |}).

Definition setSingleStep (step : T) : Method (PropertyScalarConstraints T) unit :=
  modify (fun c => {| m_minimum := m_minimum c; m_maximum := m_maximum c;
                      m_singleStep := step;
                      m_constraintsEnabled := m_constraintsEnabled c |}).

Definition setRange (minVal maxVal : T) : Method (PropertyScalarConstraints T) unit :=
  setMinimum minVal ;;
  setMaximum maxVal.

End PropertyScalarConstraints.

(** ** [GenericScalarProperty<T>]: a [GenericProperty<T>] that is also a
    [PropertyScalarConstraints<T>]. *)

Record GenericScalarProperty (T : Type) : Type := {
  gsp_property : GenericProperty T;
  gsp_constraints : PropertyScalarConstraints T
}.
Arguments gsp_property {T} _.
Arguments gsp_constraints {T} _.

Section GenericScalarProperty.
Context {T : Type}.

(** [GenericScalarProperty(grp, name)]: the constraints base is
    default-initialised. *)
Definition GenericScalarProperty_new (init : T) (indeterminate : T * T * T)
    (grp : option GroupPtr) (name : string) : GenericScalarProperty T :=
  {| gsp_property := GenericProperty_new init grp name;
     gsp_constraints := PropertyScalarConstraints_default indeterminate |}.

(** [GenericScalarProperty(grp, name, minimum, maximum, singleStep)] *)
Definition GenericScalarProperty_new_range (init : T) (grp : option GroupPtr) (name : string)
    (minimum maximum singleStep : T) : GenericScalarProperty T :=
  {| gsp_property := GenericProperty_new init grp name;
     gsp_constraints := PropertyScalarConstraints_new minimum maximum singleStep |}.

(** A member of the [PropertyScalarConstraints<T>] base run on the whole
    object. *)
Definition onConstraints {A : Type} (m : Method (PropertyScalarConstraints T) A)
  : Method (GenericScalarProperty T) A :=
  fun p =>
    let '(a, c, cs) := m (gsp_constraints p) in
    (a, {| gsp_property := gsp_property p; gsp_constraints := c |}, cs).

Definition set_scalar_value (v : T) (p : GenericScalarProperty T) : GenericScalarProperty T :=
  {| gsp_property := set_m_value v (gsp_property p); gsp_constraints := gsp_constraints p |}.

Lemma set_scalar_value_back (v : T) (p : GenericScalarProperty T) :
  set_scalar_value (m_value (gsp_property p)) (set_scalar_value v p) = p.
Proof. destruct p as [[b x] c]; reflexivity. Qed.

(** [&m_value] of the [GenericProperty<T>] base *)
Definition ptr_scalar_value : Cell (GenericScalarProperty T) T :=
  {| load := fun p => m_value (gsp_property p); store := set_scalar_value;
     load_store := fun _ _ => eq_refl; store_back := set_scalar_value_back |}.

Variable hasGroup : Property -> bool.
Variable isValid : GenericScalarProperty T -> Result.

(** The inherited [GenericProperty<T>::setValue] on a scalar property. *)
Definition scalar_setValue (val : T) : Method (GenericScalarProperty T) Result :=
  setValueHelper (fun p => hasGroup (gp_base (gsp_property p))) isValid ptr_scalar_value val.

End GenericScalarProperty.

(** ** Quantities

    [Unit] and [Quantity<UNIT>] are declared in unit.h and quantity.h; the
    units listed are those the property aliases of property_builtins.h
    instantiate.  A [Quantity<UNIT>] is a [double] whose unit is part of its
    type. *)

Inductive Unit : Type :=
| Unit_Length
| Unit_Area
| Unit_Volume
| Unit_Mass
| Unit_Time
| Unit_Angle
| Unit_Velocity.

Record Quantity (UNIT : Unit) : Type := {
  Quantity_value : float
}.
Arguments Quantity_value {UNIT} _.

(** [QuantityType(v)] *)
Definition Quantity_new (UNIT : Unit) (v : float) : Quantity UNIT :=
  {| Quantity_value := v |}.

(** ** [BasePropertyQuantity] and [GenericPropertyQuantity<UNIT>] *)

Record GenericPropertyQuantity (UNIT : Unit) : Type := {
  bpq_property : Property;
  bpq_constraints : PropertyScalarConstraints float;
  m_quantity : Quantity UNIT
}.
Arguments bpq_property {UNIT} _.
Arguments bpq_constraints {UNIT} _.
Arguments m_quantity {UNIT} _.

Definition set_m_quantity {UNIT : Unit} (q : Quantity UNIT) (p : GenericPropertyQuantity UNIT)
  : GenericPropertyQuantity UNIT :=
  {| bpq_property := bpq_property p; bpq_constraints := bpq_constraints p; m_quantity := q |}.

Lemma set_m_quantity_back {UNIT : Unit} (q : Quantity UNIT) (p : GenericPropertyQuantity UNIT) :
  set_m_quantity (m_quantity p) (set_m_quantity q p) = p.
Proof. destruct p; reflexivity. Qed.

(** [&m_quantity] *)
Definition ptr_m_quantity {UNIT : Unit} : Cell (GenericPropertyQuantity UNIT) (Quantity UNIT) :=
  {| load := m_quantity; store := set_m_quantity;
     load_store := fun _ _ => eq_refl; store_back := set_m_quantity_back |}.

Section GenericPropertyQuantity.
Context {UNIT : Unit} {QVariant : Type} `{QMetaType QVariant (Quantity UNIT)}.
Variable hasGroup : Property -> bool.
Variable isValid : GenericPropertyQuantity UNIT -> Result.

(** [GenericPropertyQuantity(grp, name)]: [m_quantity = {}] is the zero
    quantity.  The constructor of [BasePropertyQuantity] is declared only;
    it is taken to pass [grp] and [name] to [Property] and to leave the
    constraints base default-initialised, as [GenericScalarProperty] does. *)
Definition GenericPropertyQuantity_new (indeterminate : float * float * float)
    (grp : option GroupPtr) (name : string) : GenericPropertyQuantity UNIT :=
  {| bpq_property := Property_new grp name;
     bpq_constraints := PropertyScalarConstraints_default indeterminate;
     m_quantity := Quantity_new UNIT 0%float |}.

Definition quantityUnit (p : GenericPropertyQuantity UNIT) : Unit := UNIT.

Definition quantity (p : GenericPropertyQuantity UNIT) : Quantity UNIT := m_quantity p.

Definition quantityValue (p : GenericPropertyQuantity UNIT) : float :=
  Quantity_value (quantity p).

Definition setQuantity (qty : Quantity UNIT) : Method (GenericPropertyQuantity UNIT) Result :=
  setValueHelper (fun p => hasGroup (bpq_property p)) isValid ptr_m_quantity qty.

Definition setQuantityValue (v : float) : Method (GenericPropertyQuantity UNIT) Result :=
  setQuantity (Quantity_new UNIT v).

Definition quantity_valueAsVariant (p : GenericPropertyQuantity UNIT) : QVariant :=
  QVariant_fromValue (quantity p).

Definition quantity_setValueFromVariant (variant : QVariant)
  : Method (GenericPropertyQuantity UNIT) Result :=
  if QVariant_canConvert (T := Quantity UNIT) variant then
    setQuantity (QVariant_value variant)
  else
    ret (Result_error "Incompatible quantity type").

End GenericPropertyQuantity.

(** ** A closed variant

    A [QVariant] restricted to an invalid variant, a boxed [int] and a boxed
    quantity, which keeps the unit of the [Quantity<UNIT>] it was made from.
    [canConvert] holds for the boxed type itself, and [value] of another
    type is the default-constructed value, as in Qt. *)

Inductive BoxedValue : Type :=
| Boxed_invalid
| Boxed_int (i : Z)
| Boxed_quantity (unit : Unit) (magnitude : float).

#[global] Instance Unit_eq_dec : EqDecision Unit.
Proof. solve_decision. Defined.

#[global] Instance BoxedValue_int : QMetaType BoxedValue Z := {|
  QVariant_fromValue := Boxed_int;
  QVariant_canConvert := fun v => match v with Boxed_int _ => true | _ => false end;
  QVariant_value := fun v => match v with Boxed_int i => i | _ => 0%Z end
|}.

#[global] Instance BoxedValue_quantity (UNIT : Unit) : QMetaType BoxedValue (Quantity UNIT) := {|
  QVariant_fromValue := fun q => Boxed_quantity UNIT (Quantity_value q);
  QVariant_canConvert := fun v =>
    match v with
    | Boxed_quantity u _ => bool_decide (u = UNIT)
    | _ => false
    end;
  QVariant_value := fun v =>
    match v with
    | Boxed_quantity u m =>
        if decide (u = UNIT) then Quantity_new UNIT m else Quantity_new UNIT 0%float
    | _ => Quantity_new UNIT 0%float
    end
|}.

(** The unit and the magnitude a consumer reads off a boxed quantity. *)
Definition BoxedValue_unit (v : BoxedValue) : option Unit :=
  match v with
  | Boxed_quantity u _ => Some u
  | _ => None
  end.

Definition BoxedValue_magnitude (v : BoxedValue) : option float :=
  match v with
  | Boxed_quantity _ m => Some m
  | _ => None
  end.

(** ** [PropertyGroup] (property.h)

    The members of the class; [m_properties] holds the names of the
    properties the [Property*] entries point to. *)

Record PropertyGroup : Type := {
  m_parentGroup : option GroupPtr;
  m_properties : list string;
  m_propertyChangedBlocked : bool
}.

(** [PropertyGroup(parentGroup)] with the default member initialisers. *)
Definition PropertyGroup_new (parentGroup : option GroupPtr) : PropertyGroup :=
  {| m_parentGroup := parentGroup; m_properties := [];
     m_propertyChangedBlocked := false |}.

(** A run of [PropertyGroup::onPropertyChanged(prop)] on the group [group]. *)
Inductive Notification : Type :=
| onPropertyChanged (group : GroupPtr) (prop : string).

(** The groups alive, by address, and the hook runs delivered so far
    (oldest first). *)
Record World : Type := {
  groups : gmap GroupPtr PropertyGroup;
  delivered : list Notification
}.

(** Modelled from the spec: [PropertyGroup::blockPropertyChanged] and
    [PropertyGroup::isPropertyChangedBlocked] are declared in property.h and
    defined in property.cpp, which is not among the sources.  The spec has
    the group track "a single boolean change-notifications-suppressed
    flag", the member [m_propertyChangedBlocked]. *)
Definition blockPropertyChanged (group : GroupPtr) (on : bool) (w : World) : World :=
  {| groups := alter (fun g => {| m_parentGroup := m_parentGroup g;
                                  m_properties := m_properties g;
                                  m_propertyChangedBlocked := on |}) group (groups w);
     delivered := delivered w |}.

(** Modelled from the spec: [PropertyGroup::isPropertyChangedBlocked] (body
    in property.cpp), the reading of that flag; a group that is not alive
    reads unblocked. *)
Definition isPropertyChangedBlocked (group : GroupPtr) (w : World) : bool :=
  match groups w !! group with
  | Some g => m_propertyChangedBlocked g
  | None => false
  end.

(** Modelled from the spec: [Property::hasGroup] (body in property.cpp).
    The spec's "has an owning group" is a non-null [m_group]. *)
Definition Property_hasGroup (p : Property) : bool :=
  match m_group p with
  | Some _ => true
  | None => false
  end.

(** Modelled from the spec: [Property::notifyChanged] (body in
    property.cpp).  The spec fires the change notification "unless
    notifications are currently blocked for the group", and a blocked
    region "suspends onPropertyChanged callbacks". *)
Definition Property_notifyChanged (p : Property) (w : World) : World :=
  match m_group p with
  | Some group =>
      if isPropertyChangedBlocked group w then w
      else {| groups := groups w;
              delivered := delivered w ++ [onPropertyChanged group (m_name p)] |}
  | None => w
  end.

(** The calls a member function of the property [p] made, carried out on
    the world in order; [Property::isValid] is const. *)
Fixpoint perform (p : Property) (cs : list Call) (w : World) : World :=
  match cs with
  | [] => w
  | Call_isValid :: cs' => perform p cs' w
  | Call_notifyChanged :: cs' => perform p cs' (Property_notifyChanged p w)
  end.

(** Modelled from the spec: the constraint check that validation runs for
    scalar types (the validation itself, [Property::isValid], is in
    property.cpp).  The spec: "if constraints are enabled, every
    successfully committed value lies in [minimum, maximum]; violating
    writes are rejected".  [leb] is [<=] on [T]. *)
Definition checkConstraints {T : Type} (leb : T -> T -> bool)
    (c : PropertyScalarConstraints T) (v : T) : Result :=
  if constraintsEnabled c then
    if leb (minimum c) v && leb v (maximum c) then Result_ok
    else Result_error "Value out of range"
  else Result_ok.

(** Modelled from the spec: the validation of a scalar property, the
    constraint check on its stored value. *)
Definition scalar_isValid {T : Type} (leb : T -> T -> bool) (p : GenericScalarProperty T)
  : Result :=
  checkConstraints leb (gsp_constraints p) (m_value (gsp_property p)).

(** ** [PropertyChangedBlocker] (property.h) *)

(** The struct as declared: its single member, [PropertyGroup* const
    m_group = nullptr]. *)
Record PropertyChangedBlocker : Type := {
  blocker_m_group : option GroupPtr
}.

(** Modelled from the spec: the constructor of [PropertyChangedBlocker] is
    declared in property.h and defined in property.cpp, which is not among
    the sources.  The spec: entering a blocked region suspends the
    callbacks and "leaving it restores the exact prior blocked/unblocked
    state, supporting nested blocking regions without losing the outer
    state"; the comment on the struct: "in the destructor it resets the
    state to what it was before the constructor ran".  The guard has the
    one member [m_group] and the group the one flag, so what the destructor
    needs to know of the state before is in [m_group]: the constructor
    keeps the group when it is the one that blocks it, and leaves [m_group]
    null, its default, for a null group and for a group that is blocked
    already. *)
Definition PropertyChangedBlocker_new (group : option GroupPtr) (w : World)
  : PropertyChangedBlocker * World :=
  match group with
  | Some g =>
      if isPropertyChangedBlocked g w then ({| blocker_m_group := None |}, w)
      else ({| blocker_m_group := Some g |}, blockPropertyChanged g true w)
  | None => ({| blocker_m_group := None |}, w)
  end.

(** Modelled from the spec: the destructor (body in property.cpp) unblocks
    the group its guard blocked and does nothing with a null [m_group]. *)
Definition PropertyChangedBlocker_delete (b : PropertyChangedBlocker) (w : World) : World :=
  match blocker_m_group b with
  | Some g => blockPropertyChanged g false w
  | None => w
  end.

(** [depth] guards constructed one inside the other on [group]; the
    innermost guard is first in the result. *)
Fixpoint enterBlockers (depth : nat) (group : option GroupPtr) (w : World)
  : list PropertyChangedBlocker * World :=
  match depth with
  | O => ([], w)
  | S d =>
      let '(b, w1) := PropertyChangedBlocker_new group w in
      let '(bs, w2) := enterBlockers d group w1 in
      (bs ++ [b], w2)
  end.

(** The guards destroyed innermost first, as their scopes end; the result
    lists the blocked flag of [group] read after each destructor. *)
Fixpoint leaveBlockers (group : GroupPtr) (bs : list PropertyChangedBlocker) (w : World)
  : list bool * World :=
  match bs with
  | [] => ([], w)
  | b :: bs' =>
      let w1 := PropertyChangedBlocker_delete b w in
      let '(flags, w2) := leaveBlockers group bs' w1 in
      (isPropertyChangedBlocked group w1 :: flags, w2)
  end.

(** The number of places where the flag goes from blocked to unblocked in a
    run of readings that starts after the reading [before]. *)
Fixpoint unblockedTransitions (before : bool) (flags : list bool) : nat :=
  match flags with
  | [] => 0
  | f :: flags' =>
      (if before && negb f then 1 else 0) + unblockedTransitions f flags'
  end.

(** ** [Settings] (settings.h)

    Modelled from the spec: settings.h declares [addGroup], [addSection]
    and [addSetting]; their bodies, the private class [Settings::Private]
    and the index types of settings_index.h are not among the sources.  The
    spec: a three-level tree, Group, Section (of exactly one Group; a Group
    has an implicit default section), Setting (of exactly one Section,
    wrapping exactly one Property); each level has a stable byte identifier
    and a title; an add operation appends a node and returns its index, and
    "implementations must reject duplicates explicitly rather than silently
    overwrite".  A Setting is identified by the name of its property. *)

Record Settings_Setting : Type := {
  setting_property : Property
}.

Definition setting_identifier (st : Settings_Setting) : string :=
  m_name (setting_property st).

Record Settings_Section : Type := {
  section_identifier : string;
  section_title : string;
  section_isDefault : bool;
  section_settings : list Settings_Setting
}.

Record Settings_Group : Type := {
  group_identifier : string;
  group_title : string;
  group_sections : list Settings_Section
}.

Record Settings : Type := {
  m_vecGroup : list Settings_Group
}.

Definition Settings_GroupIndex : Type := nat.

Record Settings_SectionIndex : Type := {
  section_group : Settings_GroupIndex;
  section_pos : nat
}.

Record Settings_SettingIndex : Type := {
  setting_section : Settings_SectionIndex;
  setting_pos : nat
}.

(** The outcome of a registration: the index of the node appended and the
    registry afterwards, or the reason it was refused, the registry being
    left as it was. *)
Inductive RegistrationError : Type :=
| DuplicateIdentifierError
| NoSuchScope.

Inductive Registration (Index : Type) : Type :=
| Registered (index : Index) (registry : Settings)
| Rejected (why : RegistrationError).
Arguments Registered {Index} _ _.
Arguments Rejected {Index} _.

Definition hasIdentifier {A : Type} (ident : A -> string) (identifier : string) (l : list A)
  : bool :=
  existsb (fun x => String.eqb (ident x) identifier) l.

(** The implicit default section of a new group. *)
Definition defaultSection : Settings_Section :=
  {| section_identifier := "DEFAULT"; section_title := EmptyString;
     section_isDefault := true; section_settings := [] |}.

Definition groupCount (s : Settings) : nat := length (m_vecGroup s).

Definition sectionCount (index : Settings_GroupIndex) (s : Settings) : nat :=
  match m_vecGroup s !! index with
  | Some g => length (group_sections g)
  | None => 0
  end.

(** Modelled from the spec: [Settings::addGroup] (body in settings.cpp)
    appends a group with its default section and returns its index, and
    refuses an identifier a group of the registry already has. *)
Definition addGroup (identifier : string) (s : Settings) : Registration Settings_GroupIndex :=
  if hasIdentifier group_identifier identifier (m_vecGroup s) then
    Rejected DuplicateIdentifierError
  else
    Registered (length (m_vecGroup s))
      {| m_vecGroup := m_vecGroup s ++
           [ {| group_identifier := identifier; group_title := EmptyString;
                group_sections := [defaultSection] |} ] |}.

(** Modelled from the spec: [Settings::addSection] (body in settings.cpp)
    appends a section to the group [index] and returns its index, and
    refuses an identifier a section of that group already has. *)
Definition addSection (index : Settings_GroupIndex) (identifier : string) (s : Settings)
  : Registration Settings_SectionIndex :=
  match m_vecGroup s !! index with
  | None => Rejected NoSuchScope
  | Some g =>
      if hasIdentifier section_identifier identifier (group_sections g) then
        Rejected DuplicateIdentifierError
      else
        Registered {| section_group := index; section_pos := length (group_sections g) |}
          {| m_vecGroup :=
               <[ index := {| group_identifier := group_identifier g;
                              group_title := group_title g;
                              group_sections := group_sections g ++
                                [ {| section_identifier := identifier;
                                     section_title := EmptyString;
                                     section_isDefault := false;
                                     section_settings := [] |} ] |} ]> (m_vecGroup s) |}
  end.

(** Modelled from the spec: [Settings::addSetting(property, SectionIndex)]
    (body in settings.cpp) appends a setting for the property to the section
    and returns its index, and refuses a property named as a setting of that
    section already is. *)
Definition addSetting (property : Property) (index : Settings_SectionIndex) (s : Settings)
  : Registration Settings_SettingIndex :=
  match m_vecGroup s !! section_group index with
  | None => Rejected NoSuchScope
  | Some g =>
      match group_sections g !! section_pos index with
      | None => Rejected NoSuchScope
      | Some sec =>
          if hasIdentifier setting_identifier (m_name property) (section_settings sec) then
            Rejected DuplicateIdentifierError
          else
            Registered {| setting_section := index;
                          setting_pos := length (section_settings sec) |}
              {| m_vecGroup :=
                   <[ section_group index :=
                        {| group_identifier := group_identifier g;
                           group_title := group_title g;
                           group_sections :=
                             <[ section_pos index :=
                                  {| section_identifier := section_identifier sec;
                                     section_title := section_title sec;
                                     section_isDefault := section_isDefault sec;
                                     section_settings := section_settings sec ++
                                       [ {| setting_property := property |} ] |} ]>
                               (group_sections g) |} ]> (m_vecGroup s) |}
      end
  end.

(** Modelled from the spec: [Settings::addSetting(property, GroupIndex)]
    (body in settings.cpp), into the default section of the group, its
    first. *)
Definition addSetting_group (property : Property) (index : Settings_GroupIndex) (s : Settings)
  : Registration Settings_SettingIndex :=
  addSetting property {| section_group := index; section_pos := 0 |} s.

(** The identifiers of a registry's groups, of a group's sections and of a
    section's settings. *)
Definition groupIdentifiers (s : Settings) : list string :=
  map group_identifier (m_vecGroup s).
Definition sectionIdentifiers (g : Settings_Group) : list string :=
  map section_identifier (group_sections g).
Definition settingIdentifiers (sec : Settings_Section) : list string :=
  map setting_identifier (section_settings sec).

(** "Identifiers are unique within their parent scope." *)
Definition uniqueIdentifiers (s : Settings) : Prop :=
  NoDup (groupIdentifiers s) /\
  Forall (fun g => NoDup (sectionIdentifiers g) /\
                   Forall (fun sec => NoDup (settingIdentifiers sec)) (group_sections g))
         (m_vecGroup s).

(** ** The DXF reader (io_dxf.cpp, namespace [Mayo::IO]) *)

Section IO.

Local Open Scope float_scope.
#[local] Set Warnings "-inexact-float,-register-all".

(** *** What the callbacks use of the geometry kernel

    Points, directions, axes, conics and transformations are the kernel's
    value classes, modelled by their coordinates.  A shape is the record of
    what the kernel's builders were asked to build. *)

Record gp_Pnt : Type := { Pnt_X : float; Pnt_Y : float; Pnt_Z : float }.

Record gp_Dir : Type := { Dir_X : float; Dir_Y : float; Dir_Z : float }.

(** [gp::DZ()] and the unary minus of [gp_Dir] *)
Definition gp_DZ : gp_Dir := {| Dir_X := 0; Dir_Y := 0; Dir_Z := 1 |}.
Definition gp_Dir_Reversed (d : gp_Dir) : gp_Dir :=
  {| Dir_X := - Dir_X d; Dir_Y := - Dir_Y d; Dir_Z := - Dir_Z d |}.

Record gp_Ax2 : Type := { Ax2_location : gp_Pnt; Ax2_direction : gp_Dir }.

(** [gp_Pnt::Distance]: the Euclidean distance. *)
Definition gp_Pnt_Distance (p other : gp_Pnt) : float :=
  let dx := Pnt_X p - Pnt_X other in
  let dy := Pnt_Y p - Pnt_Y other in
  let dz := Pnt_Z p - Pnt_Z other in
  PrimFloat.sqrt (dx * dx + dy * dy + dz * dz).

(** [gp_Pnt::IsEqual(other, tolerance)] *)
Definition gp_Pnt_IsEqual (p other : gp_Pnt) (linearTolerance : float) : bool :=
  gp_Pnt_Distance p other <=? linearTolerance.

(** [Precision::Confusion()] *)
Definition Precision_Confusion : float := 1e-7.

Record gp_Circ : Type := { Circ_position : gp_Ax2; Circ_radius : float }.
Definition gp_Circ_Radius (c : gp_Circ) : float := Circ_radius c.

(** [gp_Elips]; [Elips_rotations] lists the rotations applied by
    [Rotate(gp_Ax1(location, direction), angle)], latest last. *)
Record gp_Elips : Type := {
  Elips_position : gp_Ax2;
  Elips_majorRadius : float;
  Elips_minorRadius : float;
  Elips_rotations : list (gp_Pnt * gp_Dir * float)
}.
Definition gp_Elips_MinorRadius (e : gp_Elips) : float := Elips_minorRadius e.
Definition gp_Elips_Rotate (location : gp_Pnt) (direction : gp_Dir) (angle : float)
    (e : gp_Elips) : gp_Elips :=
  {| Elips_position := Elips_position e;
     Elips_majorRadius := Elips_majorRadius e;
     Elips_minorRadius := Elips_minorRadius e;
     Elips_rotations := Elips_rotations e ++ [(location, direction, angle)] |}.

(** [gp_Trsf]: the affine map [p |-> matrix * p + loc], rows of the matrix
    first.  [SetValues] takes the twelve coefficients [a11 .. a34]. *)
Record gp_Trsf : Type := {
  a11 : float; a12 : float; a13 : float; a14 : float;
  a21 : float; a22 : float; a23 : float; a24 : float;
  a31 : float; a32 : float; a33 : float; a34 : float
}.

Definition gp_Trsf_SetValues (v11 v12 v13 v14 v21 v22 v23 v24 v31 v32 v33 v34 : float)
  : gp_Trsf :=
  {| a11 := v11; a12 := v12; a13 := v13; a14 := v14;
     a21 := v21; a22 := v22; a23 := v23; a24 := v24;
     a31 := v31; a32 := v32; a33 := v33; a34 := v34 |}.

Definition gp_Trsf_identity : gp_Trsf :=
  gp_Trsf_SetValues 1 0 0 0  0 1 0 0  0 0 1 0.

(** [SetTranslation(v)] *)
Definition gp_Trsf_SetTranslation (v : gp_Pnt) : gp_Trsf :=
  gp_Trsf_SetValues 1 0 0 (Pnt_X v)  0 1 0 (Pnt_Y v)  0 0 1 (Pnt_Z v).

(** [gp_Pnt::Transformed(T)]: the image of a point. *)
Definition gp_Trsf_Transforms (t : gp_Trsf) (p : gp_Pnt) : gp_Pnt :=
  {| Pnt_X := a11 t * Pnt_X p + a12 t * Pnt_Y p + a13 t * Pnt_Z p + a14 t;
     Pnt_Y := a21 t * Pnt_X p + a22 t * Pnt_Y p + a23 t * Pnt_Z p + a24 t;
     Pnt_Z := a31 t * Pnt_X p + a32 t * Pnt_Y p + a33 t * Pnt_Z p + a34 t |}.

(** [gp_Trsf::Multiplied], the kernel's [operator*]: the matrices are
    multiplied and [loc] becomes [a.loc + a.matrix * b.loc], so the product
    [a * b] maps a point by [b] first and by [a] next. *)
Definition gp_Trsf_Multiplied (a b : gp_Trsf) : gp_Trsf :=
  {| a11 := a11 a * a11 b + a12 a * a21 b + a13 a * a31 b;
     a12 := a11 a * a12 b + a12 a * a22 b + a13 a * a32 b;
     a13 := a11 a * a13 b + a12 a * a23 b + a13 a * a33 b;
     a14 := a11 a * a14 b + a12 a * a24 b + a13 a * a34 b + a14 a;
     a21 := a21 a * a11 b + a22 a * a21 b + a23 a * a31 b;
     a22 := a21 a * a12 b + a22 a * a22 b + a23 a * a32 b;
     a23 := a21 a * a13 b + a22 a * a23 b + a23 a * a33 b;
     a24 := a21 a * a14 b + a22 a * a24 b + a23 a * a34 b + a24 a;
     a31 := a31 a * a11 b + a32 a * a21 b + a33 a * a31 b;
     a32 := a31 a * a12 b + a32 a * a22 b + a33 a * a32 b;
     a33 := a31 a * a13 b + a32 a * a23 b + a33 a * a33 b;
     a34 := a31 a * a14 b + a32 a * a24 b + a33 a * a34 b + a34 a |}.

(** [Geom_BSplineCurve]: the arguments its constructor was given. *)
Record Geom_BSplineCurve : Type := {
  BSpline_poles : list gp_Pnt;
  BSpline_weights : list float;
  BSpline_knots : list float;
  BSpline_mults : list nat;
  BSpline_degree : Z;
  BSpline_periodic : bool
}.

Inductive TopoDS_Shape : Type :=
| Shape_null
| Shape_vertex (p : gp_Pnt)
| Shape_edge_line (p0 p1 : gp_Pnt)
| Shape_edge_circ (circle : gp_Circ) (p0 p1 : gp_Pnt)
| Shape_edge_elips (ellipse : gp_Elips)
| Shape_edge_curve (geom : Geom_BSplineCurve)
| Shape_compound (members : list TopoDS_Shape) (location : gp_Trsf).

Definition TopoDS_Shape_IsNull (s : TopoDS_Shape) : bool :=
  match s with
  | Shape_null => true
  | _ => false
  end.

(** [comp.Location(trsf)] *)
Definition TopoDS_Shape_Location (trsf : gp_Trsf) (s : TopoDS_Shape) : TopoDS_Shape :=
  match s with
  | Shape_compound members _ => Shape_compound members trsf
  | other => other
  end.

(** The circle an edge lies on, for an edge built on one. *)
Definition edgeCircle (s : TopoDS_Shape) : option gp_Circ :=
  match s with
  | Shape_edge_circ circle _ _ => Some circle
  | _ => None
  end.

(** *** The reader

    The members the callbacks read and write (declared in io_dxf.h):
    the parameters, the two flags, the shapes by layer name; [LayerName] is
    the layer the parser is in ([CDxfRead::LayerName()]) and [document]
    the shapes of the features added with [document->addObject]. *)

Record DxfReader : Type := {
  m_params_scaling : float;
  m_importAnnotations : bool;
  m_groupLayers : bool;
  m_layers : gmap string (list TopoDS_Shape);
  LayerName : string;
  document : list TopoDS_Shape
}.

Definition set_m_layers (layers : gmap string (list TopoDS_Shape)) (r : DxfReader) : DxfReader :=
  {| m_params_scaling := m_params_scaling r; m_importAnnotations := m_importAnnotations r;
     m_groupLayers := m_groupLayers r; m_layers := layers;
     LayerName := LayerName r; document := document r |}.

Definition document_addObject (shape : TopoDS_Shape) (r : DxfReader) : DxfReader :=
  {| m_params_scaling := m_params_scaling r; m_importAnnotations := m_importAnnotations r;
     m_groupLayers := m_groupLayers r; m_layers := m_layers r;
     LayerName := LayerName r; document := document r ++ [shape] |}.

(** A [const double*] to the three coordinates of a point. *)
Definition coords : Type := (float * float * float)%type.

Definition toPnt (r : DxfReader) (c : coords) : gp_Pnt :=
  let '(sp1, sp2, sp3) := c in
  if negb (m_params_scaling r =? 1) then
    {| Pnt_X := sp1 * m_params_scaling r;
       Pnt_Y := sp2 * m_params_scaling r;
       Pnt_Z := sp3 * m_params_scaling r |}
  else
    {| Pnt_X := sp1; Pnt_Y := sp2; Pnt_Z := sp3 |}.

Definition addShape (shape : TopoDS_Shape) (r : DxfReader) : DxfReader :=
  let layerName := LayerName r in
  let r1 :=
    match m_layers r !! layerName with
    | Some vecShape => set_m_layers (<[ layerName := vecShape ++ [shape] ]> (m_layers r)) r
    | None => r
    end in
  if negb (m_groupLayers r1) then
    if negb (String.eqb (substring 0 6 (LayerName r1)) "BLOCKS") then
      document_addObject shape r1
    else r1
  else r1.

Definition OnReadLine (s e : coords) (hidden : bool) (r : DxfReader) : DxfReader :=
  let p0 := toPnt r s in
  let p1 := toPnt r e in
  if gp_Pnt_IsEqual p0 p1 Precision_Confusion then r
  else addShape (Shape_edge_line p0 p1) r.

Definition OnReadPoint (s : coords) (r : DxfReader) : DxfReader :=
  addShape (Shape_vertex (toPnt r s)) r.

(** The body after the early return only computes a point. *)
Definition OnReadText (point : coords) (height : float) (text : string) (r : DxfReader)
  : DxfReader :=
  if m_importAnnotations r then r
  else let pt := toPnt r point in r.

Definition OnReadArc (s e c : coords) (dir hidden : bool) (r : DxfReader) : DxfReader :=
  let p0 := toPnt r s in
  let p1 := toPnt r e in
  let up := if dir then gp_DZ else gp_Dir_Reversed gp_DZ in
  let pc := toPnt r c in
  let circle := {| Circ_position := {| Ax2_location := pc; Ax2_direction := up |};
                   Circ_radius := gp_Pnt_Distance p0 pc |} in
  if 0 <? gp_Circ_Radius circle then addShape (Shape_edge_circ circle p0 p1) r
  else r.

(** [OnReadCircle] hands [p1] to the edge builder without declaring it (the
    name is [OnReadArc]'s end point); it is an argument here. *)
Definition OnReadCircle (p1 : gp_Pnt) (s c : coords) (dir hidden : bool) (r : DxfReader)
  : DxfReader :=
  let p0 := toPnt r s in
  let up := if dir then gp_DZ else gp_Dir_Reversed gp_DZ in
  let pc := toPnt r c in
  let circle := {| Circ_position := {| Ax2_location := pc; Ax2_direction := up |};
                   Circ_radius := gp_Pnt_Distance p0 pc |} in
  if 0 <? gp_Circ_Radius circle then addShape (Shape_edge_circ circle p0 p1) r
  else r.

Definition OnReadEllipse (c : coords) (major_radius minor_radius rotation start_angle
    end_angle : float) (dir : bool) (r : DxfReader) : DxfReader :=
  let up := if dir then gp_DZ else gp_Dir_Reversed gp_DZ in
  let pc := toPnt r c in
  let ellipse :=
    gp_Elips_Rotate pc up rotation
      {| Elips_position := {| Ax2_location := pc; Ax2_direction := up |};
         Elips_majorRadius := major_radius * m_params_scaling r;
         Elips_minorRadius := minor_radius * m_params_scaling r;
         Elips_rotations := [] |} in
  if 0 <? gp_Elips_MinorRadius ellipse then addShape (Shape_edge_elips ellipse) r
  else r.

Definition OnReadDimension (s e point : coords) (rotation : float) (r : DxfReader)
  : DxfReader := r.

(** *** Splines

    [SplineData] (dxf.h), the members the two builders read. *)

Record SplineData : Type := {
  sd_degree : Z;
  sd_control_points : Z;
  sd_fit_points : Z;
  sd_flag : Z;
  sd_knot : list float;
  sd_weight : list float;
  sd_controlx : list float;
  sd_controly : list float;
  sd_controlz : list float;
  sd_fitx : list float;
  sd_fity : list float;
  sd_fitz : list float
}.

(** What a call into the kernel ends with: a value, or a
    [Standard_Failure] thrown. *)
Inductive Outcome (A : Type) : Type :=
| Returned (a : A)
| Thrown.
Arguments Returned {A} _.
Arguments Thrown {A}.

Definition gp_Pnt_origin : gp_Pnt := {| Pnt_X := 0; Pnt_Y := 0; Pnt_Z := 0 |}.
Definition gp_Pnt_SetX (x : float) (p : gp_Pnt) : gp_Pnt :=
  {| Pnt_X := x; Pnt_Y := Pnt_Y p; Pnt_Z := Pnt_Z p |}.
Definition gp_Pnt_SetY (y : float) (p : gp_Pnt) : gp_Pnt :=
  {| Pnt_X := Pnt_X p; Pnt_Y := y; Pnt_Z := Pnt_Z p |}.
Definition gp_Pnt_SetZ (z : float) (p : gp_Pnt) : gp_Pnt :=
  {| Pnt_X := Pnt_X p; Pnt_Y := Pnt_Y p; Pnt_Z := z |}.

(** [index = 1; for (auto v : vals) arr(index++).Set(v);] on an array whose
    first index is 1; [index] counts from 0 here. *)
Fixpoint setEach {A : Type} (set : float -> A -> A) (vals : list float) (index : nat)
    (arr : list A) : list A :=
  match vals with
  | [] => arr
  | v :: vals' => setEach set vals' (S index) (alter (set v) index arr)
  end.

(** [std::set<double>::insert] on the sorted contents of the set. *)
Fixpoint set_insert (k : float) (sorted : list float) : list float :=
  match sorted with
  | [] => [k]
  | x :: rest =>
      if k <? x then k :: sorted
      else if x <? k then x :: set_insert k rest
      else sorted
  end.

(** [std::count] *)
Definition count (l : list float) (k : float) : nat :=
  length (filter (fun x => Is_true (x =? k)) l).

Section Kernel.

(** The kernel's cosine and sine, the constructor of [Geom_BSplineCurve],
    which throws on arguments it refuses, and
    [GeomAPI_Interpolate(points, periodic, tolerance)] followed by
    [Perform()] and [Curve()], whose handle may be null. *)
Variables cos sin : float -> float.
Variable Geom_BSplineCurve_accepts : Geom_BSplineCurve -> bool.
Variable GeomAPI_Interpolate : list gp_Pnt -> bool -> float -> Outcome (option Geom_BSplineCurve).

Definition Geom_BSplineCurve_new (poles : list gp_Pnt) (weights knots : list float)
    (mults : list nat) (degree : Z) (periodic : bool) : Outcome (option Geom_BSplineCurve) :=
  let c := {| BSpline_poles := poles; BSpline_weights := weights; BSpline_knots := knots;
              BSpline_mults := mults; BSpline_degree := degree;
              BSpline_periodic := periodic |} in
  if Geom_BSplineCurve_accepts c then Returned (Some c) else Thrown.

(** [None] is the null handle. *)
Definition createSplineFromPolesAndKnots (sd : SplineData)
  : Outcome (option Geom_BSplineCurve) :=
  let numPoles := Z.to_nat (sd_control_points sd) in
  if (numPoles <? length (sd_controlx sd))%nat || (numPoles <? length (sd_controly sd))%nat ||
     (numPoles <? length (sd_controlz sd))%nat || (numPoles <? length (sd_weight sd))%nat
  then Returned None
  else
    let occpoles :=
      setEach gp_Pnt_SetZ (sd_controlz sd) 0
        (setEach gp_Pnt_SetY (sd_controly sd) 0
           (setEach gp_Pnt_SetX (sd_controlx sd) 0
              (replicate numPoles gp_Pnt_origin))) in
    let unique := foldl (fun acc k => set_insert k acc) [] (sd_knot sd) in
    let occknots := unique in
    let occmults := map (count (sd_knot sd)) unique in
    let occweights :=
      if (length (sd_weight sd) =? numPoles)%nat then
        setEach (fun w _ => w) (sd_weight sd) 0 (replicate numPoles 0)
      else replicate numPoles 1 in
    let periodic := (sd_flag sd =? 2)%Z in
    Geom_BSplineCurve_new occpoles occweights occknots occmults (sd_degree sd) periodic.

Definition createInterpolationSpline (sd : SplineData) : Outcome (option Geom_BSplineCurve) :=
  let numPoints := Z.to_nat (sd_fit_points sd) in
  if (numPoints <? length (sd_fitx sd))%nat || (numPoints <? length (sd_fity sd))%nat ||
     (numPoints <? length (sd_fitz sd))%nat
  then Returned None
  else
    let fitpoints :=
      setEach gp_Pnt_SetZ (sd_fitz sd) 0
        (setEach gp_Pnt_SetY (sd_fity sd) 0
           (setEach gp_Pnt_SetX (sd_fitx sd) 0
              (replicate numPoints gp_Pnt_origin))) in
    let periodic := (sd_flag sd =? 2)%Z in
    GeomAPI_Interpolate fitpoints periodic Precision_Confusion.

(** The [try] block ends in [addShape] or in a [Standard_Failure], thrown
    by the kernel or for a null handle; the handler does nothing. *)
Definition OnReadSpline (sd : SplineData) (r : DxfReader) : DxfReader :=
  let geom :=
    if (0 <? sd_control_points sd)%Z then createSplineFromPolesAndKnots sd
    else if (0 <? sd_fit_points sd)%Z then createInterpolationSpline sd
    else Returned None in
  match geom with
  | Returned (Some g) => addShape (Shape_edge_curve g) r
  | Returned None => r
  | Thrown => r
  end.

(** *** Block inserts *)

(** [SetRotation(gp::OZ(), angle)] *)
Definition gp_Trsf_SetRotation_OZ (angle : float) : gp_Trsf :=
  gp_Trsf_SetValues (cos angle) (- sin angle) 0 0
                    (sin angle) (cos angle) 0 0
                    0 0 1 0.

(** The transformation [OnReadInsert] gives the compound of a block:
    [trsfScale * trsfRotZ * trsfMove]. *)
Definition insertTrsf (r : DxfReader) (point scale : coords) (rotation : float) : gp_Trsf :=
  let '(scale0, scale1, scale2) := scale in
  let trsfScale := gp_Trsf_SetValues scale0 0 0 0
                                     0 scale1 0 0
                                     0 0 scale2 0 in
  let trsfRotZ := gp_Trsf_SetRotation_OZ rotation in
  let trsfMove := gp_Trsf_SetTranslation (toPnt r point) in
  gp_Trsf_Multiplied (gp_Trsf_Multiplied trsfScale trsfRotZ) trsfMove.

(** The body of the loop of [OnReadInsert] for the layer [k]; [vecShape] is
    read from the map as it is when the loop reaches [k]. *)
Definition insertLayer (prefix : string) (point scale : coords) (rotation : float)
    (r : DxfReader) (k : string) : DxfReader :=
  if negb (String.eqb (substring 0 (String.length prefix) k) prefix) then r
  else
    match m_layers r !! k with
    | None => r
    | Some vecShape =>
        let comp :=
          Shape_compound (filter (fun shape => Is_true (negb (TopoDS_Shape_IsNull shape)))
                                 vecShape)
                         gp_Trsf_identity in
        if TopoDS_Shape_IsNull comp then r
        else addShape (TopoDS_Shape_Location (insertTrsf r point scale rotation) comp) r
    end.

(** The loop runs over the layers in the order of the container, here the
    order of [map_to_list]; [addShape] adds no key to it. *)
Definition OnReadInsert (point scale : coords) (name : string) (rotation : float)
    (r : DxfReader) : DxfReader :=
  let prefix := ("BLOCKS " ++ name ++ " ")%string in
  foldl (insertLayer prefix point scale rotation) r (map fst (map_to_list (m_layers r))).

(** The primitives of a DXF file, each with the payload of its callback,
    and the callback the parser runs for it. *)
Inductive DxfEvent : Type :=
| Event_Line (s e : coords) (hidden : bool)
| Event_Point (s : coords)
| Event_Text (point : coords) (height : float) (text : string)
| Event_Arc (s e c : coords) (dir hidden : bool)
| Event_Circle (p1 : gp_Pnt) (s c : coords) (dir hidden : bool)
| Event_Ellipse (c : coords) (major_radius minor_radius rotation start_angle end_angle : float)
    (dir : bool)
| Event_Spline (sd : SplineData)
| Event_Insert (point scale : coords) (name : string) (rotation : float)
| Event_Dimension (s e point : coords) (rotation : float).

Definition OnRead (ev : DxfEvent) (r : DxfReader) : DxfReader :=
  match ev with
  | Event_Line s e hidden => OnReadLine s e hidden r
  | Event_Point s => OnReadPoint s r
  | Event_Text point height text => OnReadText point height text r
  | Event_Arc s e c dir hidden => OnReadArc s e c dir hidden r
  | Event_Circle p1 s c dir hidden => OnReadCircle p1 s c dir hidden r
  | Event_Ellipse c major_radius minor_radius rotation start_angle end_angle dir =>
      OnReadEllipse c major_radius minor_radius rotation start_angle end_angle dir r
  | Event_Spline sd => OnReadSpline sd r
  | Event_Insert point scale name rotation => OnReadInsert point scale name rotation r
  | Event_Dimension s e point rotation => OnReadDimension s e point rotation r
  end.

(** The placement the block-insert contract asks for: a point of the block
    is scaled, then rotated about Z, then moved to the insertion point. *)
Definition scaleRotateTranslate (r : DxfReader) (point scale : coords) (rotation : float)
    (p : gp_Pnt) : gp_Pnt :=
  let '(scale0, scale1, scale2) := scale in
  gp_Trsf_Transforms (gp_Trsf_SetTranslation (toPnt r point))
    (gp_Trsf_Transforms (gp_Trsf_SetRotation_OZ rotation)
       (gp_Trsf_Transforms (gp_Trsf_SetValues scale0 0 0 0  0 scale1 0 0  0 0 scale2 0) p)).

End Kernel.

End IO.

Arguments Returned {A} _.
Arguments Thrown {A}.

(** ** [GuiDocument] (gui_document.cpp)

    The view trihedron and the graphics entities.  The members are those
    the functions below read and write (declared in gui_document.h).  The
    calls into the 3D view and the graphics scene, and the Qt signals
    emitted, are listed in order as effects. *)

(** [Qt::Corner] *)
Inductive Qt_Corner : Type :=
| Qt_TopLeftCorner
| Qt_TopRightCorner
| Qt_BottomLeftCorner
| Qt_BottomRightCorner.

(** The values of [Aspect_TypeOfTriedronPosition] that [toOccCorner]
    returns. *)
Inductive Aspect_TypeOfTriedronPosition : Type :=
| Aspect_TOTP_LEFT_UPPER
| Aspect_TOTP_RIGHT_UPPER
| Aspect_TOTP_LEFT_LOWER
| Aspect_TOTP_RIGHT_LOWER.

(** The fallback after the switch is for a value that is none of the four
    enumerators. *)
Definition toOccCorner (corner : Qt_Corner) : Aspect_TypeOfTriedronPosition :=
  match corner with
  | Qt_TopLeftCorner => Aspect_TOTP_LEFT_UPPER
  | Qt_TopRightCorner => Aspect_TOTP_RIGHT_UPPER
  | Qt_BottomLeftCorner => Aspect_TOTP_LEFT_LOWER
  | Qt_BottomRightCorner => Aspect_TOTP_RIGHT_LOWER
  end.

(** [GuiDocument::ViewTrihedronMode] *)
Inductive ViewTrihedronMode : Type :=
| ViewTrihedronMode_None
| ViewTrihedronMode_V3dViewZBuffer
| ViewTrihedronMode_AisViewCube.

#[global] Instance Qt_Corner_eq_dec : EqDecision Qt_Corner.
Proof. solve_decision. Defined.

#[global] Instance ViewTrihedronMode_eq_dec : EqDecision ViewTrihedronMode.
Proof. solve_decision. Defined.

(** The view cube behind the handle [m_aisViewCube]: the corner of its
    transform persistence; its colours and sizes are constants. *)
Record AIS_ViewCube : Type := {
  ViewCube_corner : Aspect_TypeOfTriedronPosition
}.

Definition TreeNodeId : Type := nat.

(** A handle to a graphics object, by address. *)
Definition GraphicsObjectPtr : Type := positive.

(** [GuiDocument::GraphicsEntity], the members read here. *)
Record GraphicsEntity : Type := {
  treeNodeId : TreeNodeId;
  vecGfxObject : list GraphicsObjectPtr
}.

Record GuiDocument (Bnd_Box : Type) : Type := {
  m_viewTrihedronMode : ViewTrihedronMode;
  m_viewTrihedronCorner : Qt_Corner;
  m_aisViewCube : option AIS_ViewCube;
  m_vecGraphicsEntity : list GraphicsEntity;
  m_gpxBoundingBox : Bnd_Box
}.
Arguments m_viewTrihedronMode {Bnd_Box} _.
Arguments m_viewTrihedronCorner {Bnd_Box} _.
Arguments m_aisViewCube {Bnd_Box} _.
Arguments m_vecGraphicsEntity {Bnd_Box} _.
Arguments m_gpxBoundingBox {Bnd_Box} _.

Inductive GuiEffect (Bnd_Box : Type) : Type :=
| V3dView_TriedronErase
| V3dView_TriedronDisplay (position : Aspect_TypeOfTriedronPosition)
| GfxScene_addObject_viewCube (cube : AIS_ViewCube)
| GfxScene_setObjectVisible_viewCube (cube : option AIS_ViewCube) (on : bool)
| ViewCube_SetCorner2d (position : Aspect_TypeOfTriedronPosition)
| GfxScene_eraseObject (gfxObject : GraphicsObjectPtr)
| GfxScene_redraw
| emit_viewTrihedronModeChanged (mode : ViewTrihedronMode)
| emit_viewTrihedronCornerChanged (corner : Qt_Corner)
| emit_graphicsBoundingBoxChanged (box : Bnd_Box).
Arguments V3dView_TriedronErase {Bnd_Box}.
Arguments V3dView_TriedronDisplay {Bnd_Box} _.
Arguments GfxScene_addObject_viewCube {Bnd_Box} _.
Arguments GfxScene_setObjectVisible_viewCube {Bnd_Box} _ _.
Arguments ViewCube_SetCorner2d {Bnd_Box} _.
Arguments GfxScene_eraseObject {Bnd_Box} _.
Arguments GfxScene_redraw {Bnd_Box}.
Arguments emit_viewTrihedronModeChanged {Bnd_Box} _.
Arguments emit_viewTrihedronCornerChanged {Bnd_Box} _.
Arguments emit_graphicsBoundingBoxChanged {Bnd_Box} _.

Definition isSignal {Bnd_Box : Type} (e : GuiEffect Bnd_Box) : bool :=
  match e with
  | emit_viewTrihedronModeChanged _ => true
  | emit_viewTrihedronCornerChanged _ => true
  | emit_graphicsBoundingBoxChanged _ => true
  | _ => false
  end.

Definition set_viewTrihedron {Bnd_Box : Type} (mode : ViewTrihedronMode) (corner : Qt_Corner)
    (cube : option AIS_ViewCube) (d : GuiDocument Bnd_Box) : GuiDocument Bnd_Box :=
  {| m_viewTrihedronMode := mode; m_viewTrihedronCorner := corner; m_aisViewCube := cube;
     m_vecGraphicsEntity := m_vecGraphicsEntity d; m_gpxBoundingBox := m_gpxBoundingBox d |}.

(** [v3dViewTrihedronDisplay(corner)] *)
Definition v3dViewTrihedronDisplay {Bnd_Box : Type} (corner : Qt_Corner) : list (GuiEffect Bnd_Box) :=
  [V3dView_TriedronDisplay (toOccCorner corner)].

(** [setViewTrihedronMode(mode)]; [occ_7_4] is
    [OCC_VERSION_HEX >= OCC_VERSION_CHECK(7, 4, 0)].  The lambda reads
    [m_aisViewCube] when it is called, after the cube may have been
    created. *)
Definition setViewTrihedronMode {Bnd_Box : Type} (occ_7_4 : bool) (mode : ViewTrihedronMode)
    (d : GuiDocument Bnd_Box) : GuiDocument Bnd_Box * list (GuiEffect Bnd_Box) :=
  if decide (mode = m_viewTrihedronMode d) then (d, [])
  else
    let fnViewCubeSetVisible (cube : option AIS_ViewCube) (on : bool) :=
      GfxScene_setObjectVisible_viewCube cube on in
    let '(cube, effects) :=
      match mode with
      | ViewTrihedronMode_None =>
          (m_aisViewCube d,
           [V3dView_TriedronErase; fnViewCubeSetVisible (m_aisViewCube d) false])
      | ViewTrihedronMode_V3dViewZBuffer =>
          (m_aisViewCube d,
           v3dViewTrihedronDisplay (m_viewTrihedronCorner d)
             ++ [fnViewCubeSetVisible (m_aisViewCube d) false])
      | ViewTrihedronMode_AisViewCube =>
          let '(cube, created) :=
            match m_aisViewCube d with
            | Some c => (Some c, [])
            | None =>
                if occ_7_4 then
                  let aisViewCube :=
                    {| ViewCube_corner := toOccCorner (m_viewTrihedronCorner d) |} in
                  (Some aisViewCube, [GfxScene_addObject_viewCube aisViewCube])
                else (None, [])
            end in
          (cube, created ++ [V3dView_TriedronErase; fnViewCubeSetVisible cube true])
      end in
    (set_viewTrihedron mode (m_viewTrihedronCorner d) cube d,
     effects ++ [emit_viewTrihedronModeChanged mode]).

(** [setViewTrihedronCorner(corner)] *)
Definition setViewTrihedronCorner {Bnd_Box : Type} (corner : Qt_Corner)
    (d : GuiDocument Bnd_Box) : GuiDocument Bnd_Box * list (GuiEffect Bnd_Box) :=
  if decide (corner = m_viewTrihedronCorner d) then (d, [])
  else
    let '(cube, effects) :=
      match m_viewTrihedronMode d with
      | ViewTrihedronMode_None => (m_aisViewCube d, [])
      | ViewTrihedronMode_V3dViewZBuffer => (m_aisViewCube d, v3dViewTrihedronDisplay corner)
      | ViewTrihedronMode_AisViewCube =>
          match m_aisViewCube d with
          | Some _ =>
              (Some {| ViewCube_corner := toOccCorner corner |},
               [ViewCube_SetCorner2d (toOccCorner corner)])
          | None => (None, [])
          end
      end in
    (set_viewTrihedron (m_viewTrihedronMode d) corner cube d,
     effects ++ [emit_viewTrihedronCornerChanged corner]).

(** The two calls by which the constructor sets up the trihedron. *)
Definition GuiDocument_initTrihedron {Bnd_Box : Type} (occ_7_4 : bool)
    (d : GuiDocument Bnd_Box) : GuiDocument Bnd_Box * list (GuiEffect Bnd_Box) :=
  let '(d1, e1) :=
    setViewTrihedronMode occ_7_4
      (if occ_7_4 then ViewTrihedronMode_AisViewCube else ViewTrihedronMode_V3dViewZBuffer) d in
  let '(d2, e2) :=
    setViewTrihedronCorner (if occ_7_4 then Qt_TopLeftCorner else Qt_BottomLeftCorner) d1 in
  (d2, e1 ++ e2).

(** [findGraphicsEntity]: the pointer returned is the position of the
    entity in [m_vecGraphicsEntity] together with the entity there; [None]
    is [nullptr]. *)
Definition findGraphicsEntity {Bnd_Box : Type} (entityTreeNodeId : TreeNodeId)
    (d : GuiDocument Bnd_Box) : option (nat * GraphicsEntity) :=
  list_find (fun item => treeNodeId item = entityTreeNodeId) (m_vecGraphicsEntity d).

Section GuiDocumentEntities.
Context {Bnd_Box : Type}.

(** [Bnd_Box::SetVoid], [BndUtils::add(&box, other)] (bnd_utils.h) and
    [GraphicsUtils::AisObject_boundingBox] (graphics_utils.h). *)
Variable Bnd_Box_void : Bnd_Box.
Variable BndUtils_add : Bnd_Box -> Bnd_Box -> Bnd_Box.
Variable AisObject_boundingBox : GraphicsObjectPtr -> Bnd_Box.

(** The second part of [onDocumentEntityAboutToBeDestroyed]: the box of
    all the objects of the entities, from the void box. *)
Definition recomputeBoundingBox (vec : list GraphicsEntity) : Bnd_Box :=
  foldl (fun box item =>
           foldl (fun box gfxObject => BndUtils_add box (AisObject_boundingBox gfxObject))
                 box (vecGfxObject item))
        Bnd_Box_void vec.

Definition onDocumentEntityAboutToBeDestroyed (entityTreeNodeId : TreeNodeId)
    (d : GuiDocument Bnd_Box) : GuiDocument Bnd_Box * list (GuiEffect Bnd_Box) :=
  match findGraphicsEntity entityTreeNodeId d with
  | None => (d, [])
  | Some (indexItem, item) =>
      let erased := map GfxScene_eraseObject (vecGfxObject item) in
      let vec := delete indexItem (m_vecGraphicsEntity d) in
      let box := recomputeBoundingBox vec in
      ({| m_viewTrihedronMode := m_viewTrihedronMode d;
          m_viewTrihedronCorner := m_viewTrihedronCorner d;
          m_aisViewCube := m_aisViewCube d;
          m_vecGraphicsEntity := vec;
          m_gpxBoundingBox := box |},
       erased ++ [GfxScene_redraw; emit_graphicsBoundingBoxChanged box])
  end.

End GuiDocumentEntities.

(** ** Objects used in the examples *)

(** A [PropertyInt] owned by the group at address 1, with range 0 to 100
    and step 1, holding 50. *)
Definition percentProperty : GenericScalarProperty Z :=
  set_scalar_value 50%Z
    (GenericScalarProperty_new_range 0%Z (Some 1%positive) "percent" 0%Z 100%Z 1%Z).

(** [hasGroup] and the validation of a [PropertyInt]. *)
Definition PropertyInt_hasGroup (p : GenericScalarProperty Z) : bool :=
  Property_hasGroup (gp_base (gsp_property p)).
Definition PropertyInt_isValid (p : GenericScalarProperty Z) : Result :=
  scalar_isValid Z.leb p.

(** A [PropertyInt] without constraints, owned by the same group. *)
Definition countProperty : GenericProperty Z :=
  GenericProperty_new 7%Z (Some 1%positive) "count".

(** A [PropertyInt] that belongs to no group. *)
Definition detachedProperty : GenericProperty Z :=
  GenericProperty_new 7%Z None "detached".

(** Two [PropertyLength]: [measuredLength] has no group and holds 150;
    [boundedLength] is owned by a group and is limited to 0 .. 100. *)
Definition measuredLength : GenericPropertyQuantity Unit_Length :=
  set_m_quantity (Quantity_new Unit_Length 150%float)
    (GenericPropertyQuantity_new (0%float, 0%float, 0%float) None "measured").

Definition boundedLength : GenericPropertyQuantity Unit_Length :=
  {| bpq_property := Property_new (Some 1%positive) "bounded";
     bpq_constraints := PropertyScalarConstraints_new 0%float 100%float 1%float;
     m_quantity := Quantity_new Unit_Length 0%float |}.

Definition freeLength : GenericPropertyQuantity Unit_Length :=
  GenericPropertyQuantity_new (0%float, 0%float, 0%float) (Some 1%positive) "free".

(** Modelled from the spec: the validation of a quantity property, the
    constraint check on its magnitude. *)
Definition quantity_isValid {UNIT : Unit} (p : GenericPropertyQuantity UNIT) : Result :=
  checkConstraints PrimFloat.leb (bpq_constraints p) (Quantity_value (m_quantity p)).

(** A [PropertyArea] without constraints, owned by the same group. *)
Definition freeArea : GenericPropertyQuantity Unit_Area :=
  GenericPropertyQuantity_new (0%float, 0%float, 0%float) (Some 1%positive) "area".

(** What [Property::isValid] (declared only) returns for a length property
    of a group whose override of the virtual
    [PropertyGroup::isPropertyValid(prop)] refuses lengths above 100. *)
Definition shortLength_isPropertyValid (p : GenericPropertyQuantity Unit_Length) : Result :=
  if PrimFloat.leb (quantityValue p) 100%float then Result_ok
  else Result_error "Length above 100".

(** A document in mode [None] at the bottom right corner, without a view
    cube, with the entities of node 1 (objects 10 and 11) and of node 2
    (object 20).  Its boxes are the lists of the objects they enclose. *)
Definition startDocument : GuiDocument (list GraphicsObjectPtr) :=
  {| m_viewTrihedronMode := ViewTrihedronMode_None;
     m_viewTrihedronCorner := Qt_BottomRightCorner;
     m_aisViewCube := None;
     m_vecGraphicsEntity :=
       [ {| treeNodeId := 1; vecGfxObject := [10%positive; 11%positive] |};
         {| treeNodeId := 2; vecGfxObject := [20%positive] |} ];
     m_gpxBoundingBox := [10%positive; 11%positive; 20%positive] |}.

(** The same document showing the view cube at the top left. *)
Definition cubeDocument : GuiDocument (list GraphicsObjectPtr) :=
  set_viewTrihedron ViewTrihedronMode_AisViewCube Qt_TopLeftCorner
    (Some {| ViewCube_corner := Aspect_TOTP_LEFT_UPPER |}) startDocument.

(** * Properties *)

(** ** The write protocol *)

Section WriteProtocolFacts.
Context {P T : Type}.
Variable hasGroup : P -> bool.
Variable isValid : P -> Result.
Variable ptrValue : Cell P T.

Lemma setValueHelper_unfold (newValue : T) (prop : P) :
  setValueHelper hasGroup isValid ptrValue newValue prop =
  if hasGroup prop then
    if Result_valid (isValid (store ptrValue newValue prop)) then
      (isValid (store ptrValue newValue prop), store ptrValue newValue prop,
       [Call_isValid; Call_notifyChanged])
    else
      (isValid (store ptrValue newValue prop),
       store ptrValue (load ptrValue prop) (store ptrValue newValue prop),
       [Call_isValid])
  else (Result_ok, store ptrValue newValue prop, [Call_notifyChanged]).
Proof.
  unfold setValueHelper, bind, read, modify, call, ret; simpl.
  destruct (hasGroup prop); [|reflexivity].
  destruct (Result_valid (isValid (store ptrValue newValue prop))); reflexivity.
Qed.

(** X1: without a group the write is unconditional: validation is not run,
    the value is stored and [notifyChanged] is called. *)
Lemma setValueHelper_no_group (newValue : T) (prop : P) :
  hasGroup prop = false ->
  setValueHelper hasGroup isValid ptrValue newValue prop
  = (Result_ok, store ptrValue newValue prop, [Call_notifyChanged]).
Proof. intros Hg. rewrite setValueHelper_unfold, Hg. reflexivity. Qed.

(** C1: for a property that has an owning group, [setValueHelper] is
    atomic.  If validation of the object holding the new value fails, the
    call returns that failure, the object is exactly what it was before the
    call (so the stored value is the previous one) and
    [Property::notifyChanged] is not called; if validation succeeds, the
    call returns success, the new value is stored and
    [Property::notifyChanged] is called, once, after the validation.
    Whether the group's [onPropertyChanged] hook then runs is decided
    inside [notifyChanged]. *)
Theorem setValueHelper_atomic (newValue : T) (prop : P) :
  hasGroup prop = true ->
  (forall errorText,
      isValid (store ptrValue newValue prop) = Result_error errorText ->
      setValueHelper hasGroup isValid ptrValue newValue prop
        = (Result_error errorText, prop, [Call_isValid])
      /\ load ptrValue (object (setValueHelper hasGroup isValid ptrValue newValue prop))
         = load ptrValue prop)
  /\
  (isValid (store ptrValue newValue prop) = Result_ok ->
      setValueHelper hasGroup isValid ptrValue newValue prop
        = (Result_ok, store ptrValue newValue prop, [Call_isValid; Call_notifyChanged])
      /\ load ptrValue (object (setValueHelper hasGroup isValid ptrValue newValue prop))
         = newValue).
Proof.
  intros Hg; split.
  - intros errorText He.
    rewrite setValueHelper_unfold, Hg, He; simpl.
    rewrite store_back. split; reflexivity.
  - intros Hok.
    rewrite setValueHelper_unfold, Hg, Hok; simpl.
    split; [reflexivity | apply load_store].
Qed.

End WriteProtocolFacts.

(** The setters are the write protocol on their member. *)
Lemma setValue_is_setValueHelper {T : Type} (hasGroup : Property -> bool)
    (isValid : GenericProperty T -> Result) (val : T) :
  setValue hasGroup isValid val
  = setValueHelper (fun p => hasGroup (gp_base p)) isValid ptr_m_value val.
Proof. reflexivity. Qed.

Lemma setQuantity_is_setValueHelper {UNIT : Unit} (hasGroup : Property -> bool)
    (isValid : GenericPropertyQuantity UNIT -> Result) (qty : Quantity UNIT) :
  setQuantity hasGroup isValid qty
  = setValueHelper (fun p => hasGroup (bpq_property p)) isValid ptr_m_quantity qty.
Proof. reflexivity. Qed.

(** The scenario of the spec: range 0 .. 100, step 1, value 50;
    [setValue(150)] is rejected and 50 stays, [setValue(75)] succeeds with
    one call of [notifyChanged]. *)
Lemma setValueHelper_atomic_witness :
  scalar_setValue Property_hasGroup PropertyInt_isValid 150%Z percentProperty
    = (Result_error "Value out of range", percentProperty, [Call_isValid])
  /\ scalar_setValue Property_hasGroup PropertyInt_isValid 75%Z percentProperty
    = (Result_ok, set_scalar_value 75%Z percentProperty, [Call_isValid; Call_notifyChanged]).
Proof.
  split.
  - apply (setValueHelper_atomic PropertyInt_hasGroup PropertyInt_isValid ptr_scalar_value
             150%Z percentProperty eq_refl).
    reflexivity.
  - apply (setValueHelper_atomic PropertyInt_hasGroup PropertyInt_isValid ptr_scalar_value
             75%Z percentProperty eq_refl).
    reflexivity.
Defined.

(** ** Variants *)

Section VariantFacts.
Context {T QVariant : Type} `{QMetaType QVariant T}.
Variable hasGroup : Property -> bool.
Variable isValid : GenericProperty T -> Result.

(** C3: [setValueFromVariant] on a [GenericProperty<T>].  When the variant
    cannot be converted to [T], the call returns the failure "Incompatible
    type", the property is what it was and neither validation nor
    notification is called.  When it can, the call is [setValue] of the
    converted value, the normal write protocol.  So the call succeeds only
    for a convertible variant.  [valueAsVariant] is the box of the stored
    value, whatever that value is. *)
Theorem setValueFromVariant_typed (variant : QVariant) (p : GenericProperty T) :
  (QVariant_canConvert (T := T) variant = false ->
     setValueFromVariant hasGroup isValid variant p
     = (Result_error "Incompatible type", p, []))
  /\ (QVariant_canConvert (T := T) variant = true ->
     setValueFromVariant hasGroup isValid variant p
     = setValue hasGroup isValid (QVariant_value variant) p)
  /\ (Result_valid (returned (setValueFromVariant hasGroup isValid variant p)) = true ->
     QVariant_canConvert (T := T) variant = true)
  /\ valueAsVariant p = QVariant_fromValue (m_value p).
Proof.
  unfold setValueFromVariant.
  destruct (QVariant_canConvert (T := T) variant) eqn:Hc; repeat split; try reflexivity;
    try discriminate.
Qed.

End VariantFacts.

(** A boxed quantity is refused by a [PropertyInt], which keeps its 7; a
    boxed 9 is written. *)
Lemma setValueFromVariant_typed_witness :
  setValueFromVariant Property_hasGroup (fun _ => Result_ok)
      (Boxed_quantity Unit_Length 3%float) countProperty
    = (Result_error "Incompatible type", countProperty, [])
  /\ setValueFromVariant Property_hasGroup (fun _ => Result_ok) (Boxed_int 9%Z) countProperty
    = (Result_ok, set_m_value 9%Z countProperty, [Call_isValid; Call_notifyChanged]).
Proof.
  split.
  - apply (setValueFromVariant_typed Property_hasGroup (fun _ => Result_ok)
             (Boxed_quantity Unit_Length 3%float) countProperty).
    reflexivity.
  - destruct (setValueFromVariant_typed Property_hasGroup (fun _ => Result_ok)
                (Boxed_int 9%Z) countProperty) as (_ & Hconv & _).
    rewrite (Hconv eq_refl). reflexivity.
Defined.

Section QuantityVariantFacts.
Context {UNIT : Unit} {QVariant : Type} `{QMetaType QVariant (Quantity UNIT)}.
Variable hasGroup : Property -> bool.
Variable isValid : GenericPropertyQuantity UNIT -> Result.

Lemma quantity_setValueFromVariant_convertible (variant : QVariant)
    (p : GenericPropertyQuantity UNIT) :
  QVariant_canConvert (T := Quantity UNIT) variant = true ->
  quantity_setValueFromVariant hasGroup isValid variant p
  = setQuantity hasGroup isValid (QVariant_value variant) p.
Proof. intros Hc. unfold quantity_setValueFromVariant. rewrite Hc. reflexivity. Qed.

End QuantityVariantFacts.

(** The boxes of the closed variant obey Qt's round trip. *)
Lemma BoxedValue_quantity_roundtrip (UNIT : Unit) (q : Quantity UNIT) :
  QVariant_canConvert (T := Quantity UNIT) (QVariant_fromValue q) = true
  /\ QVariant_value (QVariant_fromValue (QVariant := BoxedValue) q) = q.
Proof.
  destruct q as [m]; simpl. split.
  - apply bool_decide_eq_true. reflexivity.
  - destruct (decide (UNIT = UNIT)); [reflexivity | congruence].
Qed.

(** The box of a quantity property carries its unit and its magnitude. *)
Lemma quantity_valueAsVariant_boxed (UNIT : Unit) (p : GenericPropertyQuantity UNIT) :
  BoxedValue_unit (quantity_valueAsVariant p) = Some (quantityUnit p)
  /\ BoxedValue_magnitude (quantity_valueAsVariant p) = Some (quantityValue p).
Proof. split; reflexivity. Qed.

(** A variant made from a quantity of one unit does not convert to a
    quantity of another. *)
Lemma BoxedValue_quantity_other_unit (UNIT U : Unit) (q : Quantity UNIT) :
  U <> UNIT ->
  QVariant_canConvert (T := Quantity U) (QVariant_fromValue (QVariant := BoxedValue) q) = false.
Proof. intros Hu. simpl. apply bool_decide_eq_false. congruence. Qed.

Section QuantityRoundTrip.
Context {UNIT : Unit}.
Variable hasGroup : Property -> bool.
Variable isValid : GenericPropertyQuantity UNIT -> Result.

(** C4, as amended, with Qt's variant as [BoxedValue].  For a property
    [source] of unit [UNIT], a target [target] of the same type, and any
    [hasGroup] and validation:
    - a consumer reads the unit and the magnitude of [source] off the
      variant made by [valueAsVariant], and converting the variant to
      [Quantity<UNIT>] gives the quantity of [source];
    - when [target] has no group or its validation accepts the quantity,
      [setValueFromVariant] succeeds and [target] then holds the quantity
      of [source]: its own variant is the variant it was given;
    - when [target] has a group and its validation refuses the quantity
      with [reason], the call fails with [reason], [target] is exactly as
      before and is not notified;
    - a property of another unit refuses the variant as an incompatible
      quantity type and is unchanged. *)
Theorem quantity_variant_roundtrip (source target : GenericPropertyQuantity UNIT) :
  (BoxedValue_unit (quantity_valueAsVariant source) = Some (quantityUnit source)
   /\ BoxedValue_magnitude (quantity_valueAsVariant source) = Some (quantityValue source)
   /\ QVariant_canConvert (T := Quantity UNIT)
        (quantity_valueAsVariant (QVariant := BoxedValue) source) = true
   /\ QVariant_value (quantity_valueAsVariant (QVariant := BoxedValue) source)
      = quantity source)
  /\ ((hasGroup (bpq_property target) = true ->
         isValid (set_m_quantity (quantity source) target) = Result_ok) ->
      quantity_setValueFromVariant hasGroup isValid
        (quantity_valueAsVariant (QVariant := BoxedValue) source) target
      = (Result_ok, set_m_quantity (quantity source) target,
         (if hasGroup (bpq_property target) then [Call_isValid] else [])
         ++ [Call_notifyChanged])
      /\ quantity_valueAsVariant (QVariant := BoxedValue)
           (object (quantity_setValueFromVariant hasGroup isValid
                      (quantity_valueAsVariant (QVariant := BoxedValue) source) target))
         = quantity_valueAsVariant source
      /\ quantityUnit (object (quantity_setValueFromVariant hasGroup isValid
                                 (quantity_valueAsVariant (QVariant := BoxedValue) source)
                                 target))
         = quantityUnit source
      /\ quantityValue (object (quantity_setValueFromVariant hasGroup isValid
                                  (quantity_valueAsVariant (QVariant := BoxedValue) source)
                                  target))
         = quantityValue source)
  /\ (forall reason : string,
         hasGroup (bpq_property target) = true ->
         isValid (set_m_quantity (quantity source) target) = Result_error reason ->
         quantity_setValueFromVariant hasGroup isValid
           (quantity_valueAsVariant (QVariant := BoxedValue) source) target
         = (Result_error reason, target, [Call_isValid]))
  /\ (forall (U : Unit) (isValid' : GenericPropertyQuantity U -> Result)
             (other : GenericPropertyQuantity U),
         U <> UNIT ->
         quantity_setValueFromVariant hasGroup isValid'
           (quantity_valueAsVariant (QVariant := BoxedValue) source) other
         = (Result_error "Incompatible quantity type", other, [])).
Proof.
  destruct (BoxedValue_quantity_roundtrip UNIT (quantity source)) as [Hconv Hval].
  refine (conj _ (conj _ (conj _ _))).
  - destruct (quantity_valueAsVariant_boxed UNIT source) as [Hu Hm].
    refine (conj Hu (conj Hm (conj Hconv Hval))).
  - intros Hvalid.
    assert (Hcall : quantity_setValueFromVariant hasGroup isValid
                      (quantity_valueAsVariant (QVariant := BoxedValue) source) target
                    = (Result_ok, set_m_quantity (quantity source) target,
                       (if hasGroup (bpq_property target) then [Call_isValid] else [])
                       ++ [Call_notifyChanged])).
    { unfold quantity_valueAsVariant.
      rewrite quantity_setValueFromVariant_convertible by exact Hconv.
      rewrite Hval, setQuantity_is_setValueHelper, setValueHelper_unfold.
      destruct (hasGroup (bpq_property target)) eqn:Hg; simpl.
      - rewrite (Hvalid eq_refl). reflexivity.
      - reflexivity. }
    rewrite Hcall. refine (conj eq_refl (conj _ (conj _ _))); reflexivity.
  - intros reason Hg Herr. unfold quantity_valueAsVariant.
    rewrite quantity_setValueFromVariant_convertible by exact Hconv.
    rewrite Hval, setQuantity_is_setValueHelper, setValueHelper_unfold, Hg. simpl.
    rewrite Herr. simpl. destruct target; reflexivity.
  - intros U isValid' other Hu. unfold quantity_setValueFromVariant, quantity_valueAsVariant.
    rewrite BoxedValue_quantity_other_unit by exact Hu. reflexivity.
Qed.

End QuantityRoundTrip.

(** 150 read from [measuredLength] goes into [freeLength], whose
    constraints are not enabled; an area property refuses it. *)
Lemma quantity_variant_roundtrip_witness :
  returned (quantity_setValueFromVariant Property_hasGroup quantity_isValid
              (quantity_valueAsVariant (QVariant := BoxedValue) measuredLength) freeLength)
    = Result_ok
  /\ quantityValue (object (quantity_setValueFromVariant Property_hasGroup quantity_isValid
              (quantity_valueAsVariant (QVariant := BoxedValue) measuredLength) freeLength))
    = 150%float
  /\ quantity_setValueFromVariant Property_hasGroup quantity_isValid
       (quantity_valueAsVariant (QVariant := BoxedValue) measuredLength) freeArea
     = (Result_error "Incompatible quantity type", freeArea, []).
Proof.
  destruct (quantity_variant_roundtrip Property_hasGroup quantity_isValid
              measuredLength freeLength) as (_ & Hwrite & _ & Hother).
  destruct (Hwrite (fun _ => eq_refl)) as (Hcall & _ & _ & Hval).
  refine (conj _ (conj Hval _)).
  - rewrite Hcall. reflexivity.
  - apply Hother. discriminate.
Defined.

(** C4 as stated fails: the 150 of [measuredLength], boxed and written to
    [freeLength], a property of the same type whose group refuses lengths
    above 100, is rejected by the validation of the write protocol; the
    call fails and [freeLength] keeps its 0. *)
Lemma quantity_variant_roundtrip_rejected :
  quantity_setValueFromVariant Property_hasGroup shortLength_isPropertyValid
      (quantity_valueAsVariant (QVariant := BoxedValue) measuredLength) freeLength
  = (Result_error "Length above 100", freeLength, [Call_isValid])
  /\ quantityValue freeLength <> quantityValue measuredLength.
Proof.
  split.
  - vm_compute. reflexivity.
  - vm_compute. discriminate.
Qed.

(** ** Scalar constraints *)

(** C8: a [GenericScalarProperty] constructed without bounds has
    [constraintsEnabled() == false], whatever its three uninitialised
    scalars hold, so the constraint check accepts every value; one
    constructed with minimum, maximum and single step has
    [constraintsEnabled() == true] and holds these three. *)
Theorem constraints_inactive_by_default {T : Type} (leb : T -> T -> bool) (init : T)
    (indeterminate : T * T * T) (grp : option GroupPtr) (name : string)
    (minVal maxVal step v : T) :
  constraintsEnabled (gsp_constraints (GenericScalarProperty_new init indeterminate grp name))
    = false
  /\ checkConstraints leb
       (gsp_constraints (GenericScalarProperty_new init indeterminate grp name)) v
     = Result_ok
  /\ constraintsEnabled
       (gsp_constraints (GenericScalarProperty_new_range init grp name minVal maxVal step))
     = true
  /\ gsp_constraints (GenericScalarProperty_new_range init grp name minVal maxVal step)
     = {| m_minimum := minVal; m_maximum := maxVal; m_singleStep := step;
          m_constraintsEnabled := true |}.
Proof. repeat split; reflexivity. Qed.

(** C9: the five mutators of the bounds, run on a scalar property, leave
    its [GenericProperty] part, and so the stored value, as it was, and
    call neither [isValid] nor [notifyChanged], whatever the value and the
    new bounds are.  Each changes the member it names and no other;
    [setRange] changes the minimum and the maximum and no other. *)
Theorem bounds_mutators_frame {T : Type} (p : GenericScalarProperty T)
    (minVal maxVal val : T) (on : bool) :
  onConstraints (setRange minVal maxVal) p
    = (tt, {| gsp_property := gsp_property p;
              gsp_constraints :=
                {| m_minimum := minVal; m_maximum := maxVal;
                   m_singleStep := m_singleStep (gsp_constraints p);
                   m_constraintsEnabled := m_constraintsEnabled (gsp_constraints p) |} |}, [])
  /\ onConstraints (setMinimum val) p
    = (tt, {| gsp_property := gsp_property p;
              gsp_constraints :=
                {| m_minimum := val; m_maximum := m_maximum (gsp_constraints p);
                   m_singleStep := m_singleStep (gsp_constraints p);
                   m_constraintsEnabled := m_constraintsEnabled (gsp_constraints p) |} |}, [])
  /\ onConstraints (setMaximum val) p
    = (tt, {| gsp_property := gsp_property p;
              gsp_constraints :=
                {| m_minimum := m_minimum (gsp_constraints p); m_maximum := val;
                   m_singleStep := m_singleStep (gsp_constraints p);
                   m_constraintsEnabled := m_constraintsEnabled (gsp_constraints p) |} |}, [])
  /\ onConstraints (setSingleStep val) p
    = (tt, {| gsp_property := gsp_property p;
              gsp_constraints :=
                {| m_minimum := m_minimum (gsp_constraints p);
                   m_maximum := m_maximum (gsp_constraints p);
                   m_singleStep := val;
                   m_constraintsEnabled := m_constraintsEnabled (gsp_constraints p) |} |}, [])
  /\ onConstraints (setConstraintsEnabled on) p
    = (tt, {| gsp_property := gsp_property p;
              gsp_constraints :=
                {| m_minimum := m_minimum (gsp_constraints p);
                   m_maximum := m_maximum (gsp_constraints p);
                   m_singleStep := m_singleStep (gsp_constraints p);
                   m_constraintsEnabled := on |} |}, []).
Proof. repeat split; reflexivity. Qed.

(** The stored value after any run of bound mutators is the stored value
    before it, and no call is made. *)
Lemma onConstraints_value {T A : Type} (m : Method (PropertyScalarConstraints T) A)
    (p : GenericScalarProperty T) :
  gsp_property (object (onConstraints m p)) = gsp_property p
  /\ calls (onConstraints m p) = calls (m (gsp_constraints p)).
Proof.
  unfold onConstraints, object, calls.
  destruct (m (gsp_constraints p)) as [[a c] cs]. split; reflexivity.
Qed.

(** The 50 of [percentProperty] stays when the range becomes 0 .. 10, and
    only the next write is checked against the new range. *)
Example setRange_keeps_value :
  m_value (gsp_property (object (onConstraints (setRange 0%Z 10%Z) percentProperty))) = 50%Z
  /\ calls (onConstraints (setRange 0%Z 10%Z) percentProperty) = []
  /\ returned (scalar_setValue Property_hasGroup PropertyInt_isValid 50%Z
                 (object (onConstraints (setRange 0%Z 10%Z) percentProperty)))
     = Result_error "Value out of range".
Proof. repeat split; reflexivity. Qed.

(** ** Blocking the change notifications of a group *)

Lemma blockPropertyChanged_lookup (g : GroupPtr) (on : bool) (w : World) (j : GroupPtr) :
  groups (blockPropertyChanged g on w) !! j
  = if decide (g = j) then
      (fun grp => {| m_parentGroup := m_parentGroup grp; m_properties := m_properties grp;
                     m_propertyChangedBlocked := on |}) <$> groups w !! g
    else groups w !! j.
Proof. unfold blockPropertyChanged; simpl. apply lookup_alter. Qed.

Lemma isPropertyChangedBlocked_block (g : GroupPtr) (on : bool) (w : World) :
  is_Some (groups w !! g) ->
  isPropertyChangedBlocked g (blockPropertyChanged g on w) = on.
Proof.
  intros [grp Hg]. unfold isPropertyChangedBlocked.
  rewrite blockPropertyChanged_lookup, decide_True by reflexivity.
  rewrite Hg. reflexivity.
Qed.

Lemma blockPropertyChanged_is_Some (g : GroupPtr) (on : bool) (w : World) :
  is_Some (groups w !! g) -> is_Some (groups (blockPropertyChanged g on w) !! g).
Proof.
  intros [grp Hg]. rewrite blockPropertyChanged_lookup, decide_True by reflexivity.
  rewrite Hg. eexists; reflexivity.
Qed.

Lemma World_eq (w1 w2 : World) :
  (forall j, groups w1 !! j = groups w2 !! j) -> delivered w1 = delivered w2 -> w1 = w2.
Proof.
  destruct w1 as [g1 d1], w2 as [g2 d2]; simpl. intros Hg Hd.
  f_equal; [apply map_eq; exact Hg | exact Hd].
Qed.

Lemma blockPropertyChanged_twice (g : GroupPtr) (a b : bool) (w : World) :
  blockPropertyChanged g b (blockPropertyChanged g a w) = blockPropertyChanged g b w.
Proof.
  apply World_eq; [|reflexivity]. intros j.
  rewrite !blockPropertyChanged_lookup.
  destruct (decide (g = j)); [|reflexivity].
  rewrite decide_True by reflexivity.
  destruct (groups w !! g); reflexivity.
Qed.

Lemma blockPropertyChanged_same (g : GroupPtr) (w : World) :
  blockPropertyChanged g (isPropertyChangedBlocked g w) w = w.
Proof.
  apply World_eq; [|reflexivity]. intros j.
  rewrite blockPropertyChanged_lookup. unfold isPropertyChangedBlocked.
  destruct (decide (g = j)) as [->|]; [|reflexivity].
  destruct (groups w !! j) as [[parent props blocked]|]; reflexivity.
Qed.

(** A guard constructed and destroyed, with anything in between that
    leaves the group blocked, puts the world back. *)
Lemma blocker_new_delete (g : GroupPtr) (w : World) :
  PropertyChangedBlocker_delete (fst (PropertyChangedBlocker_new (Some g) w))
    (snd (PropertyChangedBlocker_new (Some g) w)) = w.
Proof.
  unfold PropertyChangedBlocker_new, PropertyChangedBlocker_delete.
  destruct (isPropertyChangedBlocked g w) eqn:Hb; simpl; [reflexivity|].
  rewrite blockPropertyChanged_twice, <- Hb. apply blockPropertyChanged_same.
Qed.

Lemma blocker_new_blocked (g : GroupPtr) (w : World) :
  is_Some (groups w !! g) ->
  isPropertyChangedBlocked g (snd (PropertyChangedBlocker_new (Some g) w)) = true.
Proof.
  intros Hg. unfold PropertyChangedBlocker_new.
  destruct (isPropertyChangedBlocked g w) eqn:Hb; simpl; [exact Hb|].
  apply isPropertyChangedBlocked_block, Hg.
Qed.

Lemma blocker_new_is_Some (g : GroupPtr) (w : World) :
  is_Some (groups w !! g) ->
  is_Some (groups (snd (PropertyChangedBlocker_new (Some g) w)) !! g).
Proof.
  intros Hg. unfold PropertyChangedBlocker_new.
  destruct (isPropertyChangedBlocked g w); simpl; [exact Hg|].
  apply blockPropertyChanged_is_Some, Hg.
Qed.

Lemma leaveBlockers_app (g : GroupPtr) (bs1 bs2 : list PropertyChangedBlocker) (w : World) :
  leaveBlockers g (bs1 ++ bs2) w
  = (fst (leaveBlockers g bs1 w) ++ fst (leaveBlockers g bs2 (snd (leaveBlockers g bs1 w))),
     snd (leaveBlockers g bs2 (snd (leaveBlockers g bs1 w)))).
Proof.
  revert w. induction bs1 as [|b bs1 IH]; intros w; simpl.
  - destruct (leaveBlockers g bs2 w); reflexivity.
  - rewrite IH.
    destruct (leaveBlockers g bs1 (PropertyChangedBlocker_delete b w)) as [f1 w1]; simpl.
    reflexivity.
Qed.

(** Guards nested to any depth and then left: the world is back, and a
    group that was blocked all along reads blocked after every
    destructor. *)
Lemma enter_leave (g : GroupPtr) (depth : nat) (w : World) :
  is_Some (groups w !! g) ->
  snd (leaveBlockers g (fst (enterBlockers depth (Some g) w))
         (snd (enterBlockers depth (Some g) w))) = w
  /\ (isPropertyChangedBlocked g w = true ->
      fst (leaveBlockers g (fst (enterBlockers depth (Some g) w))
             (snd (enterBlockers depth (Some g) w))) = replicate depth true)
  /\ (depth <> 0 -> isPropertyChangedBlocked g (snd (enterBlockers depth (Some g) w)) = true).
Proof.
  revert w. induction depth as [|d IH]; intros w Hg.
  - simpl. split; [reflexivity | split; [reflexivity | congruence]].
  - cbn [enterBlockers].
    set (b := fst (PropertyChangedBlocker_new (Some g) w)).
    set (w1 := snd (PropertyChangedBlocker_new (Some g) w)).
    assert (Hnew : PropertyChangedBlocker_new (Some g) w = (b, w1))
      by (subst b w1; destruct (PropertyChangedBlocker_new (Some g) w); reflexivity).
    rewrite Hnew.
    assert (Hg1 : is_Some (groups w1 !! g))
      by (subst w1; apply blocker_new_is_Some, Hg).
    assert (Hb1 : isPropertyChangedBlocked g w1 = true)
      by (subst w1; apply blocker_new_blocked, Hg).
    destruct (IH w1 Hg1) as (Hback & Hflags & Hin).
    destruct (enterBlockers d (Some g) w1) as [bs w2] eqn:He; simpl in *.
    rewrite leaveBlockers_app, Hback; simpl.
    assert (Hdel : PropertyChangedBlocker_delete b w1 = w)
      by (subst b w1; apply blocker_new_delete).
    rewrite Hdel. refine (conj eq_refl (conj _ _)).
    + intros Hw. rewrite (Hflags Hb1), Hw.
      clear. induction d; simpl; [reflexivity | f_equal; assumption].
    + intros _. destruct d as [|d'].
      * simpl in He. injection He as <- <-. exact Hb1.
      * apply Hin. discriminate.
Qed.

Lemma unblockedTransitions_blocked (n : nat) (last : bool) :
  unblockedTransitions true (replicate n true ++ [last]) = if last then 0 else 1.
Proof. induction n; simpl; [destruct last; reflexivity | exact IHn]. Qed.

(** The readings after the destructors of [S depth] nested guards: blocked
    after each inner one, the state before the outer guard after the
    last. *)
Lemma leave_readings (g : GroupPtr) (depth : nat) (w : World) :
  is_Some (groups w !! g) ->
  fst (leaveBlockers g (fst (enterBlockers (S depth) (Some g) w))
         (snd (enterBlockers (S depth) (Some g) w)))
  = replicate depth true ++ [isPropertyChangedBlocked g w].
Proof.
  intros Hg. cbn [enterBlockers].
  set (b := fst (PropertyChangedBlocker_new (Some g) w)).
  set (w1 := snd (PropertyChangedBlocker_new (Some g) w)).
  assert (Hnew : PropertyChangedBlocker_new (Some g) w = (b, w1))
    by (subst b w1; destruct (PropertyChangedBlocker_new (Some g) w); reflexivity).
  rewrite Hnew.
  assert (Hg1 : is_Some (groups w1 !! g))
    by (subst w1; apply blocker_new_is_Some, Hg).
  assert (Hb1 : isPropertyChangedBlocked g w1 = true)
    by (subst w1; apply blocker_new_blocked, Hg).
  destruct (enter_leave g depth w1 Hg1) as (Hback & Hflags & _).
  destruct (enterBlockers depth (Some g) w1) as [bs w2]; simpl in *.
  rewrite leaveBlockers_app, Hback, (Hflags Hb1); simpl.
  assert (Hdel : PropertyChangedBlocker_delete b w1 = w)
    by (subst b w1; apply blocker_new_delete).
  rewrite Hdel. reflexivity.
Qed.

(** C2: on a group [g] of the world and a property [p] it owns.  With two
    nested guards, after the inner one is destroyed the group is still
    blocked and [notifyChanged] of [p] delivers nothing; after the outer
    one is destroyed the world is the one before the outer guard was
    constructed.  With guards nested to any depth [S depth], the group
    reads blocked inside, and after every destructor but the last; the
    last puts the world back, so a group that was not blocked shows one
    passage from blocked to unblocked. *)
Theorem nested_blocking_restores (g : GroupPtr) (p : Property) (w : World) (depth : nat) :
  is_Some (groups w !! g) ->
  m_group p = Some g ->
  (forall outer w1 inner w2,
      PropertyChangedBlocker_new (Some g) w = (outer, w1) ->
      PropertyChangedBlocker_new (Some g) w1 = (inner, w2) ->
      isPropertyChangedBlocked g (PropertyChangedBlocker_delete inner w2) = true
      /\ Property_notifyChanged p (PropertyChangedBlocker_delete inner w2)
         = PropertyChangedBlocker_delete inner w2
      /\ PropertyChangedBlocker_delete outer (PropertyChangedBlocker_delete inner w2) = w)
  /\ (forall bs w1 flags w2,
      enterBlockers (S depth) (Some g) w = (bs, w1) ->
      leaveBlockers g bs w1 = (flags, w2) ->
      isPropertyChangedBlocked g w1 = true
      /\ Property_notifyChanged p w1 = w1
      /\ flags = replicate depth true ++ [isPropertyChangedBlocked g w]
      /\ w2 = w
      /\ (isPropertyChangedBlocked g w = false -> unblockedTransitions true flags = 1)).
Proof.
  intros Hg Hp. split.
  - intros outer w1 inner w2 Ho Hi.
    assert (Hg1 : is_Some (groups w1 !! g)).
    { replace w1 with (snd (PropertyChangedBlocker_new (Some g) w)) by (rewrite Ho; reflexivity).
      apply blocker_new_is_Some, Hg. }
    assert (Hb1 : isPropertyChangedBlocked g w1 = true).
    { replace w1 with (snd (PropertyChangedBlocker_new (Some g) w)) by (rewrite Ho; reflexivity).
      apply blocker_new_blocked, Hg. }
    assert (Hin : PropertyChangedBlocker_delete inner w2 = w1).
    { pose proof (blocker_new_delete g w1) as Hd. rewrite Hi in Hd. exact Hd. }
    rewrite Hin. refine (conj _ (conj _ _)).
    + exact Hb1.
    + unfold Property_notifyChanged. rewrite Hp, Hb1. reflexivity.
    + pose proof (blocker_new_delete g w) as Hd. rewrite Ho in Hd. exact Hd.
  - intros bs w1 flags w2 He Hl.
    destruct (enter_leave g (S depth) w Hg) as (Hback & _ & Hin).
    pose proof (leave_readings g depth w Hg) as Hflags.
    rewrite He in Hback, Hflags, Hin; simpl in Hback, Hflags, Hin.
    rewrite Hl in Hback, Hflags; simpl in Hback, Hflags.
    assert (Hb1 : isPropertyChangedBlocked g w1 = true) by (apply Hin; discriminate).
    refine (conj _ (conj _ (conj _ (conj _ _)))).
    + exact Hb1.
    + unfold Property_notifyChanged. rewrite Hp, Hb1. reflexivity.
    + exact Hflags.
    + exact Hback.
    + intros Hw. rewrite Hflags, Hw. apply unblockedTransitions_blocked.
Qed.

(** A world with one group, at address 1, that owns [percentProperty]. *)
Definition oneGroupWorld : World :=
  {| groups := {[ 1%positive := {| m_parentGroup := None; m_properties := ["percent"];
                                   m_propertyChangedBlocked := false |} ]};
     delivered := [] |}.

(** Three nested guards on the group of [oneGroupWorld]: blocked, blocked,
    then unblocked as before, and the world is back. *)
Lemma nested_blocking_restores_witness :
  fst (leaveBlockers 1%positive (fst (enterBlockers 3 (Some 1%positive) oneGroupWorld))
         (snd (enterBlockers 3 (Some 1%positive) oneGroupWorld)))
    = [true; true; false]
  /\ snd (leaveBlockers 1%positive (fst (enterBlockers 3 (Some 1%positive) oneGroupWorld))
         (snd (enterBlockers 3 (Some 1%positive) oneGroupWorld)))
    = oneGroupWorld.
Proof.
  assert (Hg : is_Some (groups oneGroupWorld !! 1%positive)) by (eexists; reflexivity).
  destruct (nested_blocking_restores 1%positive (gp_base (gsp_property percentProperty))
              oneGroupWorld 2 Hg eq_refl) as [_ Hn].
  destruct (Hn _ _ _ _ (surjective_pairing _) (surjective_pairing _))
    as (_ & _ & Hflags & Hback & _).
  split; [exact Hflags | exact Hback].
Defined.

(** The scenario of the spec, [setValue(75)] on [percentProperty]: one
    [onPropertyChanged] is delivered in [oneGroupWorld], none inside a
    guard. *)
Example setValue_notifies_unless_blocked :
  delivered (perform (gp_base (gsp_property percentProperty))
               (calls (scalar_setValue Property_hasGroup PropertyInt_isValid 75%Z
                         percentProperty))
               oneGroupWorld)
    = [onPropertyChanged 1%positive "percent"]
  /\ delivered (perform (gp_base (gsp_property percentProperty))
               (calls (scalar_setValue Property_hasGroup PropertyInt_isValid 75%Z
                         percentProperty))
               (snd (PropertyChangedBlocker_new (Some 1%positive) oneGroupWorld)))
    = [].
Proof. split; reflexivity. Qed.

(** ** The settings registry *)

Lemma hasIdentifier_In {A : Type} (ident : A -> string) (identifier : string) (l : list A) :
  hasIdentifier ident identifier l = true <-> In identifier (map ident l).
Proof.
  unfold hasIdentifier. rewrite existsb_exists, in_map_iff. split.
  - intros (x & Hx & He). apply String.eqb_eq in He. exists x. split; assumption.
  - intros (x & He & Hx). exists x. split; [assumption | apply String.eqb_eq, He].
Qed.

Lemma hasIdentifier_not_In {A : Type} (ident : A -> string) (identifier : string)
    (l : list A) :
  ~ In identifier (map ident l) -> hasIdentifier ident identifier l = false.
Proof.
  intros Hn. destruct (hasIdentifier ident identifier l) eqn:Hh; [|reflexivity].
  exfalso. apply Hn, hasIdentifier_In, Hh.
Qed.

Lemma addSection_fresh (index : Settings_GroupIndex) (identifier : string) (s : Settings)
    (g : Settings_Group) :
  m_vecGroup s !! index = Some g ->
  ~ In identifier (sectionIdentifiers g) ->
  exists s', addSection index identifier s
             = Registered {| section_group := index;
                             section_pos := length (group_sections g) |} s'
    /\ (forall j, j <> index -> m_vecGroup s' !! j = m_vecGroup s !! j)
    /\ exists g', m_vecGroup s' !! index = Some g'
         /\ group_identifier g' = group_identifier g
         /\ sectionIdentifiers g' = sectionIdentifiers g ++ [identifier].
Proof.
  intros Hg Hfresh. unfold addSection. rewrite Hg.
  rewrite (hasIdentifier_not_In _ _ _ Hfresh).
  eexists. split; [reflexivity|]. simpl. split.
  - intros j Hj. apply list_lookup_insert_ne. congruence.
  - eexists. split.
    + apply list_lookup_insert_eq. eapply lookup_lt_Some, Hg.
    + simpl. split; [reflexivity|].
      unfold sectionIdentifiers; simpl. rewrite map_app. reflexivity.
Qed.

(** C5: in a registry [s], a Group whose identifier is that of a group of
    [s], a Section whose identifier is that of a section of the same
    group, and a Setting whose property is named as a setting of the same
    section, are each refused with [DuplicateIdentifierError]; nothing is
    written, the registry being the [s] that was passed.  A Section
    identifier new to two different groups is registered in the first and
    then in the second. *)
Theorem duplicate_identifiers_rejected (s : Settings) :
  (forall identifier,
      In identifier (groupIdentifiers s) ->
      addGroup identifier s = Rejected DuplicateIdentifierError)
  /\ (forall index g identifier,
      m_vecGroup s !! index = Some g ->
      In identifier (sectionIdentifiers g) ->
      addSection index identifier s = Rejected DuplicateIdentifierError)
  /\ (forall index g sec property,
      m_vecGroup s !! section_group index = Some g ->
      group_sections g !! section_pos index = Some sec ->
      In (m_name property) (settingIdentifiers sec) ->
      addSetting property index s = Rejected DuplicateIdentifierError)
  /\ (forall i1 i2 g1 g2 identifier,
      i1 <> i2 ->
      m_vecGroup s !! i1 = Some g1 ->
      m_vecGroup s !! i2 = Some g2 ->
      ~ In identifier (sectionIdentifiers g1) ->
      ~ In identifier (sectionIdentifiers g2) ->
      exists s1 s2 g1' g2',
        addSection i1 identifier s
          = Registered {| section_group := i1; section_pos := length (group_sections g1) |} s1
        /\ addSection i2 identifier s1
          = Registered {| section_group := i2; section_pos := length (group_sections g2) |} s2
        /\ m_vecGroup s2 !! i1 = Some g1'
        /\ sectionIdentifiers g1' = sectionIdentifiers g1 ++ [identifier]
        /\ m_vecGroup s2 !! i2 = Some g2'
        /\ sectionIdentifiers g2' = sectionIdentifiers g2 ++ [identifier]).
Proof.
  refine (conj _ (conj _ (conj _ _))).
  - intros identifier Hin. unfold addGroup.
    rewrite (proj2 (hasIdentifier_In _ _ _) Hin). reflexivity.
  - intros index g identifier Hg Hin. unfold addSection. rewrite Hg.
    rewrite (proj2 (hasIdentifier_In _ _ _) Hin). reflexivity.
  - intros index g sec property Hg Hsec Hin. unfold addSetting. rewrite Hg, Hsec.
    rewrite (proj2 (hasIdentifier_In _ _ _) Hin). reflexivity.
  - intros i1 i2 g1 g2 identifier Hne Hg1 Hg2 Hf1 Hf2.
    destruct (addSection_fresh i1 identifier s g1 Hg1 Hf1)
      as (s1 & Ha1 & Hother1 & g1' & Hl1 & _ & Hs1).
    assert (Hg2' : m_vecGroup s1 !! i2 = Some g2)
      by (rewrite Hother1 by congruence; exact Hg2).
    destruct (addSection_fresh i2 identifier s1 g2 Hg2' Hf2)
      as (s2 & Ha2 & Hother2 & g2' & Hl2 & _ & Hs2).
    exists s1, s2, g1', g2'.
    refine (conj Ha1 (conj Ha2 (conj _ (conj Hs1 (conj Hl2 Hs2))))).
    rewrite Hother2 by congruence. exact Hl1.
Qed.

(** Identifiers stay unique within their parent scope. *)

Lemma map_insert_same {A B : Type} (f : A -> B) (l : list A) (i : nat) (x y : A) :
  l !! i = Some x -> f y = f x -> map f (<[ i := y ]> l) = map f l.
Proof.
  revert i. induction l as [|a l IH]; intros [|i] Hl Hf; simpl in *; try discriminate.
  - injection Hl as ->. rewrite Hf. reflexivity.
  - rewrite (IH i Hl Hf). reflexivity.
Qed.

Lemma NoDup_snoc_fresh (l : list string) (x : string) :
  NoDup l -> ~ In x l -> NoDup (l ++ [x]).
Proof.
  intros Hl Hx. apply NoDup_app. split; [exact Hl|]. split; [|apply NoDup_singleton].
  intros y Hy Hy'. apply list_elem_of_singleton in Hy'. subst y.
  apply Hx, list_elem_of_In, Hy.
Qed.

Lemma hasIdentifier_false {A : Type} (ident : A -> string) (identifier : string)
    (l : list A) :
  hasIdentifier ident identifier l = false -> ~ In identifier (map ident l).
Proof. intros Hh Hin. apply hasIdentifier_In in Hin. congruence. Qed.

Lemma addGroup_unique (identifier : string) (s s' : Settings) (index : Settings_GroupIndex) :
  uniqueIdentifiers s ->
  addGroup identifier s = Registered index s' ->
  uniqueIdentifiers s'.
Proof.
  intros [Hgroups Hall]. unfold addGroup.
  destruct (hasIdentifier group_identifier identifier (m_vecGroup s)) eqn:Hh; [discriminate|].
  intros Heq. injection Heq as _ <-.
  unfold uniqueIdentifiers, groupIdentifiers; simpl. split.
  - rewrite map_app. apply NoDup_snoc_fresh; [exact Hgroups|].
    apply hasIdentifier_false, Hh.
  - apply Forall_app. split; [exact Hall|].
    constructor; [|constructor]. split.
    + apply NoDup_singleton.
    + constructor; [apply NoDup_nil_2 | constructor].
Qed.

Lemma addSection_unique (gi : Settings_GroupIndex) (identifier : string) (s s' : Settings)
    (index : Settings_SectionIndex) :
  uniqueIdentifiers s ->
  addSection gi identifier s = Registered index s' ->
  uniqueIdentifiers s'.
Proof.
  intros [Hgroups Hall]. unfold addSection.
  destruct (m_vecGroup s !! gi) as [g|] eqn:Hg; [|discriminate].
  destruct (hasIdentifier section_identifier identifier (group_sections g)) eqn:Hh;
    [discriminate|].
  intros Heq. injection Heq as _ <-.
  destruct (Forall_lookup_1 _ _ _ _ Hall Hg) as [Hsections Hsettings].
  unfold uniqueIdentifiers, groupIdentifiers; simpl. split.
  - rewrite (map_insert_same _ _ _ g) by (exact Hg || reflexivity). exact Hgroups.
  - apply Forall_insert; [exact Hall|]. unfold sectionIdentifiers; simpl. split.
    + rewrite map_app. apply NoDup_snoc_fresh; [exact Hsections|].
      apply hasIdentifier_false, Hh.
    + apply Forall_app. split; [exact Hsettings|].
      constructor; [apply NoDup_nil_2 | constructor].
Qed.

Lemma addSetting_unique (property : Property) (si : Settings_SectionIndex) (s s' : Settings)
    (index : Settings_SettingIndex) :
  uniqueIdentifiers s ->
  addSetting property si s = Registered index s' ->
  uniqueIdentifiers s'.
Proof.
  intros [Hgroups Hall]. unfold addSetting.
  destruct (m_vecGroup s !! section_group si) as [g|] eqn:Hg; [|discriminate].
  destruct (group_sections g !! section_pos si) as [sec|] eqn:Hsec; [|discriminate].
  destruct (hasIdentifier setting_identifier (m_name property) (section_settings sec)) eqn:Hh;
    [discriminate|].
  intros Heq. injection Heq as _ <-.
  destruct (Forall_lookup_1 _ _ _ _ Hall Hg) as [Hsections Hsettings].
  pose proof (Forall_lookup_1 _ _ _ _ Hsettings Hsec) as Hsecs.
  unfold uniqueIdentifiers, groupIdentifiers; simpl. split.
  - rewrite (map_insert_same _ _ _ g) by (exact Hg || reflexivity). exact Hgroups.
  - apply Forall_insert; [exact Hall|]. unfold sectionIdentifiers; simpl. split.
    + rewrite (map_insert_same _ _ _ sec) by (exact Hsec || reflexivity). exact Hsections.
    + apply Forall_insert; [exact Hsettings|].
      unfold settingIdentifiers; simpl. rewrite map_app.
      apply NoDup_snoc_fresh; [exact Hsecs|].
      apply hasIdentifier_false, Hh.
Qed.

(** A registry with the groups "application" and "import", each with its
    default section only. *)
Definition twoGroups : Settings :=
  {| m_vecGroup :=
       [ {| group_identifier := "application"; group_title := EmptyString;
            group_sections := [defaultSection] |};
         {| group_identifier := "import"; group_title := EmptyString;
            group_sections := [defaultSection] |} ] |}.

(** The group "import" again is refused; the section "dxf" goes into both
    groups, and a second "dxf" in the first group is refused. *)
Lemma duplicate_identifiers_rejected_witness :
  addGroup "import" twoGroups = Rejected DuplicateIdentifierError
  /\ exists s1 s2,
       addSection 0 "dxf" twoGroups = Registered {| section_group := 0; section_pos := 1 |} s1
       /\ addSection 1 "dxf" s1 = Registered {| section_group := 1; section_pos := 1 |} s2
       /\ addSection 0 "dxf" s2 = Rejected DuplicateIdentifierError.
Proof.
  split.
  - apply (duplicate_identifiers_rejected twoGroups). simpl. tauto.
  - eexists _, _. split; [reflexivity|]. split; [reflexivity|]. reflexivity.
Defined.

(** ** The DXF reader *)

Section IOFacts.
Local Open Scope float_scope.

(** A reader with scaling factor 2 whose only layer, "0", is the current
    one and holds nothing yet; and the same reader with no layer at all. *)
Definition layerZeroReader : DxfReader :=
  {| m_params_scaling := 2; m_importAnnotations := false; m_groupLayers := true;
     m_layers := {[ "0"%string := [] ]}; LayerName := "0"; document := [] |}.

Definition noLayerReader : DxfReader :=
  {| m_params_scaling := 2; m_importAnnotations := false; m_groupLayers := true;
     m_layers := ∅; LayerName := "0"; document := [] |}.

(** A reader without scaling, in layer "0", that has read the block "b":
    one vertex at the origin. *)
Definition blockReader : DxfReader :=
  {| m_params_scaling := 1; m_importAnnotations := false; m_groupLayers := true;
     m_layers := {[ "0"%string := []; "BLOCKS b 1"%string := [Shape_vertex gp_Pnt_origin] ]};
     LayerName := "0"; document := [] |}.

(** *** [addShape] *)

Lemma addShape_m_layers (shape : TopoDS_Shape) (r : DxfReader) :
  m_layers (addShape shape r)
  = match m_layers r !! LayerName r with
    | Some vecShape => <[ LayerName r := vecShape ++ [shape] ]> (m_layers r)
    | None => m_layers r
    end.
Proof.
  destruct r as [scaling annotations grouped layers name doc].
  unfold addShape; simpl.
  destruct (layers !! name) as [vecShape|]; simpl;
    destruct grouped; simpl; try reflexivity;
    destruct (String.eqb (substring 0 6 name) "BLOCKS"); reflexivity.
Qed.

Lemma addShape_members (shape : TopoDS_Shape) (r : DxfReader) :
  LayerName (addShape shape r) = LayerName r
  /\ m_groupLayers (addShape shape r) = m_groupLayers r
  /\ m_params_scaling (addShape shape r) = m_params_scaling r
  /\ m_importAnnotations (addShape shape r) = m_importAnnotations r.
Proof.
  destruct r as [scaling annotations grouped layers name doc].
  unfold addShape; simpl.
  destruct (layers !! name) as [vecShape|]; simpl;
    destruct grouped; simpl; try (repeat split; reflexivity);
    destruct (String.eqb (substring 0 6 name) "BLOCKS"); repeat split; reflexivity.
Qed.

Lemma addShape_discards (shape : TopoDS_Shape) (r : DxfReader) :
  m_layers r !! LayerName r = None -> m_groupLayers r = true -> addShape shape r = r.
Proof. intros Hl Hg. unfold addShape. rewrite Hl, Hg. reflexivity. Qed.

(** What a callback may do to the reader: the current layer, the flags and
    the keys of the layer map stay; the other layers stay; with the current
    layer missing from the map the map stays, and with layers grouped the
    whole reader does. *)
Definition layersFrame (r r' : DxfReader) : Prop :=
  LayerName r' = LayerName r
  /\ m_groupLayers r' = m_groupLayers r
  /\ dom (m_layers r') = dom (m_layers r)
  /\ (forall k, k <> LayerName r -> m_layers r' !! k = m_layers r !! k)
  /\ (m_layers r !! LayerName r = None -> m_layers r' = m_layers r)
  /\ (m_layers r !! LayerName r = None -> m_groupLayers r = true -> r' = r).

Lemma layersFrame_refl (r : DxfReader) : layersFrame r r.
Proof. unfold layersFrame. tauto. Qed.

Lemma layersFrame_trans (r1 r2 r3 : DxfReader) :
  layersFrame r1 r2 -> layersFrame r2 r3 -> layersFrame r1 r3.
Proof.
  intros (Hn & Hf & Hd & Hk & Hm & Hr) (Hn' & Hf' & Hd' & Hk' & Hm' & Hr').
  unfold layersFrame. refine (conj _ (conj _ (conj _ (conj _ (conj _ _))))).
  - congruence.
  - congruence.
  - congruence.
  - intros k Hne. rewrite Hk' by congruence. apply Hk, Hne.
  - intros Hnone. rewrite Hm'; [apply Hm, Hnone|].
    rewrite Hn, (Hm Hnone). exact Hnone.
  - intros Hnone Hg. rewrite Hr'; [apply Hr; assumption| |].
    + rewrite (Hr Hnone Hg). exact Hnone.
    + rewrite (Hr Hnone Hg). exact Hg.
Qed.

Lemma addShape_frame (shape : TopoDS_Shape) (r : DxfReader) :
  layersFrame r (addShape shape r).
Proof.
  destruct (addShape_members shape r) as (Hn & Hf & _ & _).
  unfold layersFrame. refine (conj Hn (conj Hf (conj _ (conj _ (conj _ _))))).
  - rewrite addShape_m_layers.
    destruct (m_layers r !! LayerName r) as [vecShape|] eqn:Hl; [|reflexivity].
    apply dom_insert_lookup_L. rewrite Hl. eexists; reflexivity.
  - intros k Hne. rewrite addShape_m_layers.
    destruct (m_layers r !! LayerName r) as [vecShape|]; [|reflexivity].
    apply lookup_insert_ne. congruence.
  - intros Hnone. rewrite addShape_m_layers, Hnone. reflexivity.
  - apply addShape_discards.
Qed.

Section KernelFacts.
Variables cos sin : float -> float.
Variable Geom_BSplineCurve_accepts : Geom_BSplineCurve -> bool.
Variable GeomAPI_Interpolate : list gp_Pnt -> bool -> float -> Outcome (option Geom_BSplineCurve).

Lemma insertLayer_frame (prefix : string) (point scale : coords) (rotation : float)
    (r : DxfReader) (k : string) :
  layersFrame r (insertLayer cos sin prefix point scale rotation r k).
Proof.
  unfold insertLayer.
  destruct (negb (String.eqb (substring 0 (String.length prefix) k) prefix));
    [apply layersFrame_refl|].
  destruct (m_layers r !! k); [|apply layersFrame_refl].
  simpl. apply addShape_frame.
Qed.

Lemma OnReadInsert_frame (point scale : coords) (name : string) (rotation : float)
    (r : DxfReader) :
  layersFrame r (OnReadInsert cos sin point scale name rotation r).
Proof.
  unfold OnReadInsert.
  generalize (map fst (map_to_list (m_layers r))) as keys.
  intros keys. revert r.
  induction keys as [|k keys IH]; intros r; simpl.
  - apply layersFrame_refl.
  - eapply layersFrame_trans; [apply insertLayer_frame | apply IH].
Qed.

Lemma OnRead_frame (ev : DxfEvent) (r : DxfReader) :
  layersFrame r (OnRead cos sin Geom_BSplineCurve_accepts GeomAPI_Interpolate ev r).
Proof.
  destruct ev; simpl.
  - unfold OnReadLine.
    destruct (gp_Pnt_IsEqual _ _ _); [apply layersFrame_refl | apply addShape_frame].
  - apply addShape_frame.
  - unfold OnReadText. destruct (m_importAnnotations r); apply layersFrame_refl.
  - unfold OnReadArc.
    destruct (0 <? _); [apply addShape_frame | apply layersFrame_refl].
  - unfold OnReadCircle.
    destruct (0 <? _); [apply addShape_frame | apply layersFrame_refl].
  - unfold OnReadEllipse.
    destruct (0 <? _); [apply addShape_frame | apply layersFrame_refl].
  - unfold OnReadSpline.
    destruct (if (0 <? sd_control_points sd)%Z then _ else _) as [[g|]|];
      [apply addShape_frame | apply layersFrame_refl | apply layersFrame_refl].
  - apply OnReadInsert_frame.
  - apply layersFrame_refl.
Qed.

(** C10: [addShape] appends the shape to the vector of the current layer
    when the layer name is a key of [m_layers], and leaves [m_layers] as it
    is when it is not; it never adds a key.  So does every callback: the
    keys of [m_layers] after it are the keys before it, and with the
    current layer missing [m_layers] is unchanged; when layers are grouped
    the reader as a whole is unchanged, the shape is gone, and the callback,
    which returns nothing, reports nothing. *)
Theorem shapes_kept_only_for_known_layers (ev : DxfEvent) (shape : TopoDS_Shape)
    (r : DxfReader) :
  (forall vecShape,
      m_layers r !! LayerName r = Some vecShape ->
      m_layers (addShape shape r) = <[ LayerName r := vecShape ++ [shape] ]> (m_layers r))
  /\ (m_layers r !! LayerName r = None -> m_layers (addShape shape r) = m_layers r)
  /\ dom (m_layers (addShape shape r)) = dom (m_layers r)
  /\ (m_layers r !! LayerName r = None -> m_groupLayers r = true -> addShape shape r = r)
  /\ dom (m_layers (OnRead cos sin Geom_BSplineCurve_accepts GeomAPI_Interpolate ev r))
     = dom (m_layers r)
  /\ (m_layers r !! LayerName r = None ->
      m_layers (OnRead cos sin Geom_BSplineCurve_accepts GeomAPI_Interpolate ev r)
      = m_layers r)
  /\ (m_layers r !! LayerName r = None -> m_groupLayers r = true ->
      OnRead cos sin Geom_BSplineCurve_accepts GeomAPI_Interpolate ev r = r).
Proof.
  destruct (addShape_frame shape r) as (_ & _ & Hd & _ & Hm & Hr).
  destruct (OnRead_frame ev r) as (_ & _ & Hd' & _ & Hm' & Hr').
  refine (conj _ (conj Hm (conj Hd (conj Hr (conj Hd' (conj Hm' Hr')))))).
  intros vecShape Hl. rewrite addShape_m_layers, Hl. reflexivity.
Qed.

End KernelFacts.

(** An arc read by [noLayerReader], which has no layer registered, leaves
    the reader as it was. *)
Lemma shapes_kept_only_for_known_layers_witness :
  OnRead (fun _ => 1) (fun _ => 0) (fun _ => true) (fun _ _ _ => Thrown)
    (Event_Arc (5, 0, 0) (0, 5, 0) (0, 0, 0) true false) noLayerReader
  = noLayerReader.
Proof.
  apply (shapes_kept_only_for_known_layers (fun _ => 1) (fun _ => 0) (fun _ => true)
           (fun _ _ _ => Thrown) (Event_Arc (5, 0, 0) (0, 5, 0) (0, 0, 0) true false)
           Shape_null noLayerReader); reflexivity.
Defined.

(** *** Degenerate primitives *)

Lemma eqb_zero_not_positive (x : float) : (x =? 0) = true -> (0 <? x) = false.
Proof.
  rewrite FloatAxioms.eqb_spec, FloatAxioms.ltb_spec.
  change (Prim2SF 0) with (S754_zero false).
  unfold SFeqb, SFltb.
  destruct (Prim2SF x) as [sg|sg| |sg m e]; simpl; try reflexivity; try discriminate;
    destruct sg; discriminate.
Qed.

(** A circle whose radius is not above zero, a NaN included, adds
    nothing. *)
Lemma OnReadCircle_not_positive (p1 : gp_Pnt) (s c : coords) (dir hidden : bool)
    (r : DxfReader) :
  (0 <? gp_Pnt_Distance (toPnt r s) (toPnt r c)) = false ->
  OnReadCircle p1 s c dir hidden r = r.
Proof. intros Hr. unfold OnReadCircle; simpl. rewrite Hr. reflexivity. Qed.

Lemma toPnt_scaling_2 (r : DxfReader) (x y z : float) :
  m_params_scaling r = 2 ->
  toPnt r (x, y, z) = {| Pnt_X := x * 2; Pnt_Y := y * 2; Pnt_Z := z * 2 |}.
Proof. intros Hs. unfold toPnt. rewrite Hs. reflexivity. Qed.

(** C7: a circle event whose computed radius is 0 leaves the reader as it
    was, and so does a line event whose end points, scaled, are equal
    within [Precision::Confusion()].  With scaling factor 2, the circle
    event of start point (5,0,0) and centre (0,0,0), of radius 5, makes one
    shape, an edge on the circle of centre (0,0,0) and radius 10, and hands
    it to [addShape]; with the current layer registered, the layer map
    afterwards is the one before with that edge added to the layer. *)
Theorem degenerate_primitives_skipped (r : DxfReader) (p1 : gp_Pnt) (dir hidden : bool) :
  (forall s c,
      (gp_Pnt_Distance (toPnt r s) (toPnt r c) =? 0) = true ->
      OnReadCircle p1 s c dir hidden r = r)
  /\ (forall s e,
      gp_Pnt_IsEqual (toPnt r s) (toPnt r e) Precision_Confusion = true ->
      OnReadLine s e hidden r = r)
  /\ (m_params_scaling r = 2 ->
      exists edge circle,
        OnReadCircle p1 (5, 0, 0) (0, 0, 0) dir hidden r = addShape edge r
        /\ edgeCircle edge = Some circle
        /\ gp_Circ_Radius circle = 10
        /\ Ax2_location (Circ_position circle) = gp_Pnt_origin
        /\ forall vecShape,
             m_layers r !! LayerName r = Some vecShape ->
             m_layers (OnReadCircle p1 (5, 0, 0) (0, 0, 0) dir hidden r)
             = <[ LayerName r := vecShape ++ [edge] ]> (m_layers r)).
Proof.
  refine (conj _ (conj _ _)).
  - intros s c Hz. apply OnReadCircle_not_positive, eqb_zero_not_positive, Hz.
  - intros s e He. unfold OnReadLine. rewrite He. reflexivity.
  - intros Hs. unfold OnReadCircle.
    rewrite !toPnt_scaling_2 by exact Hs.
    change (0 <? gp_Circ_Radius _) with true. cbv iota.
    eexists _, _. split; [reflexivity|]. split; [reflexivity|].
    split; [reflexivity|]. split; [reflexivity|].
    intros vecShape Hl. rewrite addShape_m_layers, Hl. reflexivity.
Qed.

(** The scenario of the spec on [layerZeroReader]: the degenerate circle
    leaves layer "0" empty, the circle of radius 5 puts one edge of radius
    10 in it. *)
Lemma degenerate_primitives_skipped_witness :
  m_layers (OnReadCircle gp_Pnt_origin (0, 0, 0) (0, 0, 0) true false layerZeroReader)
    !! "0"%string = Some []
  /\ exists edge circle,
       m_layers (OnReadCircle gp_Pnt_origin (5, 0, 0) (0, 0, 0) true false layerZeroReader)
         !! "0"%string = Some [edge]
       /\ edgeCircle edge = Some circle
       /\ gp_Circ_Radius circle = 10.
Proof.
  destruct (degenerate_primitives_skipped layerZeroReader gp_Pnt_origin true false)
    as (Hzero & _ & Hten).
  split.
  - rewrite (Hzero (0, 0, 0) (0, 0, 0) eq_refl). reflexivity.
  - destruct (Hten eq_refl) as (edge & circle & _ & He & Hr & _ & Hl).
    exists edge, circle. rewrite (Hl [] eq_refl). split; [|split; assumption].
    apply lookup_insert_eq.
Defined.

(** *** Block inserts *)

(** The product of the kernel on a scale by 2 and a translation by
    (1,0,0): the origin is translated first and scaled next. *)
Example gp_Trsf_Multiplied_order :
  gp_Trsf_Transforms
    (gp_Trsf_Multiplied (gp_Trsf_SetValues 2 0 0 0  0 2 0 0  0 0 2 0)
                        (gp_Trsf_SetTranslation {| Pnt_X := 1; Pnt_Y := 0; Pnt_Z := 0 |}))
    gp_Pnt_origin
  = gp_Trsf_Transforms (gp_Trsf_SetValues 2 0 0 0  0 2 0 0  0 0 2 0)
      (gp_Trsf_Transforms (gp_Trsf_SetTranslation {| Pnt_X := 1; Pnt_Y := 0; Pnt_Z := 0 |})
         gp_Pnt_origin).
Proof. reflexivity. Qed.

(** C6, the code at a block inserted at (1,0,0) with scale 2 and no
    rotation, by a reader that does not scale: the compound is located
    by the product of the scale, the rotation and the translation in
    that order of writing, which moves a point of the block to the
    insertion point first and scales last.  The origin of the block
    lands on (2,0,0); scaled, then rotated, then moved to the insertion
    point, it is (1,0,0). *)
Theorem insert_moves_before_scaling (cos sin : float -> float) (r : DxfReader) :
  cos 0 = 1 -> sin 0 = 0 -> m_params_scaling r = 1 ->
  insertTrsf cos sin r (1, 0, 0) (2, 2, 2) 0
    = gp_Trsf_SetValues 2 0 0 2  0 2 0 0  0 0 2 0
  /\ gp_Trsf_Transforms (insertTrsf cos sin r (1, 0, 0) (2, 2, 2) 0) gp_Pnt_origin
     = {| Pnt_X := 2; Pnt_Y := 0; Pnt_Z := 0 |}
  /\ scaleRotateTranslate cos sin r (1, 0, 0) (2, 2, 2) 0 gp_Pnt_origin
     = {| Pnt_X := 1; Pnt_Y := 0; Pnt_Z := 0 |}.
Proof.
  intros Hc Hs Hr.
  unfold insertTrsf, scaleRotateTranslate, gp_Trsf_SetRotation_OZ, toPnt.
  rewrite Hc, Hs, Hr.
  refine (conj _ (conj _ _)); vm_compute; reflexivity.
Qed.

(** The whole callback on [blockReader]: layer "0" receives the compound
    of the block with that location. *)
Lemma insert_moves_before_scaling_witness :
  m_layers (OnReadInsert (fun _ => 1) (fun _ => 0) (1, 0, 0) (2, 2, 2) "b" 0 blockReader)
    !! "0"%string
  = Some [Shape_compound [Shape_vertex gp_Pnt_origin]
            (insertTrsf (fun _ => 1) (fun _ => 0) blockReader (1, 0, 0) (2, 2, 2) 0)]
  /\ gp_Trsf_Transforms
       (insertTrsf (fun _ => 1) (fun _ => 0) blockReader (1, 0, 0) (2, 2, 2) 0) gp_Pnt_origin
     = {| Pnt_X := 2; Pnt_Y := 0; Pnt_Z := 0 |}
  /\ scaleRotateTranslate (fun _ => 1) (fun _ => 0) blockReader (1, 0, 0) (2, 2, 2) 0
       gp_Pnt_origin
     = {| Pnt_X := 1; Pnt_Y := 0; Pnt_Z := 0 |}.
Proof.
  split; [vm_compute; reflexivity|].
  apply (insert_moves_before_scaling (fun _ => 1) (fun _ => 0) blockReader
           eq_refl eq_refl eq_refl).
Defined.

(** *** Splines *)

Lemma setEach_length {A : Type} (set : float -> A -> A) (vals : list float) (index : nat)
    (arr : list A) :
  length (setEach set vals index arr) = length arr.
Proof.
  revert index arr. induction vals as [|v vals IH]; intros index arr; simpl.
  - reflexivity.
  - rewrite IH. apply length_alter.
Qed.

(** The element at [j] after the loop: the setter of the value read for
    it, if one was read, applied to what was there. *)
Lemma setEach_lookup {A : Type} (set : float -> A -> A) (vals : list float) (index : nat)
    (arr : list A) (j : nat) :
  setEach set vals index arr !! j
  = match (if decide (index <= j)%nat then vals !! (j - index)%nat else None) with
    | Some v => set v <$> arr !! j
    | None => arr !! j
    end.
Proof.
  revert index arr. induction vals as [|v vals IH]; intros index arr; simpl.
  - destruct (decide (index <= j)%nat); reflexivity.
  - rewrite IH, list_lookup_alter.
    destruct (decide (index = j)) as [->|Hne].
    + rewrite decide_False by lia. rewrite decide_True by lia.
      replace (j - j)%nat with 0%nat by lia. reflexivity.
    + destruct (decide (S index <= j)%nat) as [Hle|Hgt].
      * rewrite decide_True by lia.
        replace (j - index)%nat with (S (j - S index)) by lia. simpl.
        destruct (vals !! (j - S index)%nat); reflexivity.
      * rewrite decide_False by lia. reflexivity.
Qed.

(** The points an array of [n] origins becomes when the three coordinate
    lists, none longer than [n], are written into it. *)
Lemma points_lookup (n : nat) (xs ys zs : list float) (j : nat) :
  (j < n)%nat ->
  setEach gp_Pnt_SetZ zs 0
    (setEach gp_Pnt_SetY ys 0 (setEach gp_Pnt_SetX xs 0 (replicate n gp_Pnt_origin))) !! j
  = Some {| Pnt_X := nth j xs 0; Pnt_Y := nth j ys 0; Pnt_Z := nth j zs 0 |}.
Proof.
  intros Hj. rewrite !setEach_lookup, !decide_True by lia.
  rewrite Nat.sub_0_r, lookup_replicate_2 by exact Hj.
  rewrite !nth_lookup.
  destruct (xs !! j), (ys !! j), (zs !! j); reflexivity.
Qed.

Lemma setEach_overwrite (vals : list float) (init : float) :
  setEach (fun w _ => w) vals 0 (replicate (length vals) init) = vals.
Proof.
  apply list_eq. intros j. rewrite setEach_lookup, decide_True by lia.
  rewrite Nat.sub_0_r.
  destruct (vals !! j) as [v|] eqn:Hv.
  - rewrite lookup_replicate_2 by (eapply lookup_lt_Some, Hv). reflexivity.
  - apply lookup_replicate_None. apply lookup_ge_None in Hv. lia.
Qed.

(** Each element is below the next. *)
Fixpoint increasing (l : list float) : Prop :=
  match l with
  | [] => True
  | x :: rest =>
      match rest with
      | [] => True
      | y :: _ => (x <? y) = true /\ increasing rest
      end
  end.

Lemma set_insert_increasing (k : float) (sorted : list float) :
  increasing sorted -> increasing (set_insert k sorted).
Proof.
  induction sorted as [|x rest IH]; intros Hs.
  - exact I.
  - cbn [set_insert].
    destruct (k <? x) eqn:Hkx; [split; assumption|].
    destruct (x <? k) eqn:Hxk; [|exact Hs].
    destruct rest as [|y rest'].
    + simpl. split; [exact Hxk | exact I].
    + destruct Hs as [Hxy Hrest]. specialize (IH Hrest).
      cbn [set_insert] in *.
      destruct (k <? y); [split; [exact Hxk | exact IH]|].
      destruct (y <? k); (split; [exact Hxy | exact IH]).
Qed.

Lemma set_insert_In (k x : float) (sorted : list float) :
  In x (set_insert k sorted) -> x = k \/ In x sorted.
Proof.
  induction sorted as [|y rest IH]; simpl.
  - intros [<-|[]]. left; reflexivity.
  - destruct (k <? y).
    + intros [<-|Hin]; [left; reflexivity | right; exact Hin].
    + destruct (y <? k).
      * intros [<-|Hin]; [right; left; reflexivity|].
        destruct (IH Hin) as [->|Hr]; [left; reflexivity | right; right; exact Hr].
      * intros Hin. right. exact Hin.
Qed.

Lemma unique_knots (knot acc : list float) :
  increasing acc ->
  increasing (foldl (fun acc k => set_insert k acc) acc knot)
  /\ forall x, In x (foldl (fun acc k => set_insert k acc) acc knot) -> In x knot \/ In x acc.
Proof.
  revert acc. induction knot as [|k knot IH]; intros acc Hacc; simpl.
  - split; [exact Hacc | intros x Hx; right; exact Hx].
  - destruct (IH (set_insert k acc) (set_insert_increasing k acc Hacc)) as [Hinc Hin].
    split; [exact Hinc|].
    intros x Hx. destruct (Hin x Hx) as [Hk|Hs]; [left; right; exact Hk|].
    destruct (set_insert_In k x acc Hs) as [->|Ha]; [left; left; reflexivity | right; exact Ha].
Qed.

Section SplineFacts.
Variable Geom_BSplineCurve_accepts : Geom_BSplineCurve -> bool.
Variable GeomAPI_Interpolate : list gp_Pnt -> bool -> float -> Outcome (option Geom_BSplineCurve).

(** What [createSplineFromPolesAndKnots] returns when it returns a curve. *)
Lemma createSplineFromPolesAndKnots_curve (sd : SplineData) (c : Geom_BSplineCurve) :
  createSplineFromPolesAndKnots Geom_BSplineCurve_accepts sd = Returned (Some c) ->
  (length (sd_controlx sd) <= Z.to_nat (sd_control_points sd))%nat
  /\ (length (sd_controly sd) <= Z.to_nat (sd_control_points sd))%nat
  /\ (length (sd_controlz sd) <= Z.to_nat (sd_control_points sd))%nat
  /\ (length (sd_weight sd) <= Z.to_nat (sd_control_points sd))%nat
  /\ c = {| BSpline_poles :=
              setEach gp_Pnt_SetZ (sd_controlz sd) 0
                (setEach gp_Pnt_SetY (sd_controly sd) 0
                   (setEach gp_Pnt_SetX (sd_controlx sd) 0
                      (replicate (Z.to_nat (sd_control_points sd)) gp_Pnt_origin)));
            BSpline_weights :=
              if (length (sd_weight sd) =? Z.to_nat (sd_control_points sd))%nat then
                setEach (fun w _ => w) (sd_weight sd) 0
                  (replicate (Z.to_nat (sd_control_points sd)) 0)
              else replicate (Z.to_nat (sd_control_points sd)) 1;
            BSpline_knots := foldl (fun acc k => set_insert k acc) [] (sd_knot sd);
            BSpline_mults :=
              map (count (sd_knot sd)) (foldl (fun acc k => set_insert k acc) [] (sd_knot sd));
            BSpline_degree := sd_degree sd;
            BSpline_periodic := (sd_flag sd =? 2)%Z |}.
Proof.
  unfold createSplineFromPolesAndKnots, Geom_BSplineCurve_new.
  destruct (_ || _) eqn:Hsizes; [discriminate|].
  destruct (Geom_BSplineCurve_accepts _); [|discriminate].
  intros Heq. injection Heq as <-.
  apply orb_false_elim in Hsizes as [Hsizes Hw].
  apply orb_false_elim in Hsizes as [Hsizes Hz].
  apply orb_false_elim in Hsizes as [Hx Hy].
  apply Nat.ltb_ge in Hx, Hy, Hz, Hw.
  repeat (split; [assumption|]). reflexivity.
Qed.

(** X2: when [createSplineFromPolesAndKnots] returns a curve, the curve has
    as many poles as the spline declares control points, and pole [j] has
    the [j]-th entries of the x, y and z lists for coordinates, a list that
    is too short giving 0. *)
Theorem spline_poles (sd : SplineData) (c : Geom_BSplineCurve) (j : nat) :
  createSplineFromPolesAndKnots Geom_BSplineCurve_accepts sd = Returned (Some c) ->
  length (BSpline_poles c) = Z.to_nat (sd_control_points sd)
  /\ ((j < Z.to_nat (sd_control_points sd))%nat ->
      BSpline_poles c !! j
      = Some {| Pnt_X := nth j (sd_controlx sd) 0;
                Pnt_Y := nth j (sd_controly sd) 0;
                Pnt_Z := nth j (sd_controlz sd) 0 |}).
Proof.
  intros Hc. destruct (createSplineFromPolesAndKnots_curve sd c Hc) as (_ & _ & _ & _ & ->).
  simpl. split.
  - rewrite !setEach_length. apply length_replicate.
  - apply points_lookup.
Qed.

(** X3: the knots of the curve are strictly increasing and each is one of
    the knots read; there is one multiplicity per knot; and the curve has
    one weight per control point: the weights read when there are exactly
    that many, and 1 for every control point otherwise. *)
Theorem spline_knots_weights (sd : SplineData) (c : Geom_BSplineCurve) :
  createSplineFromPolesAndKnots Geom_BSplineCurve_accepts sd = Returned (Some c) ->
  increasing (BSpline_knots c)
  /\ (forall k, In k (BSpline_knots c) -> In k (sd_knot sd))
  /\ length (BSpline_mults c) = length (BSpline_knots c)
  /\ length (BSpline_weights c) = Z.to_nat (sd_control_points sd)
  /\ (length (sd_weight sd) = Z.to_nat (sd_control_points sd) ->
      BSpline_weights c = sd_weight sd)
  /\ (length (sd_weight sd) <> Z.to_nat (sd_control_points sd) ->
      BSpline_weights c = replicate (Z.to_nat (sd_control_points sd)) 1).
Proof.
  intros Hc. destruct (createSplineFromPolesAndKnots_curve sd c Hc) as (_ & _ & _ & _ & ->).
  simpl. destruct (unique_knots (sd_knot sd) [] I) as [Hinc Hin].
  refine (conj Hinc (conj _ (conj _ (conj _ (conj _ _))))).
  - intros k Hk. destruct (Hin k Hk) as [H|[]]. exact H.
  - apply length_map.
  - destruct (_ =? _)%nat; [rewrite setEach_length|]; apply length_replicate.
  - intros Hlen. rewrite <- Hlen, Nat.eqb_refl. apply setEach_overwrite.
  - intros Hlen. apply Nat.eqb_neq in Hlen. rewrite Hlen. reflexivity.
Qed.

(** X4: [OnReadSpline] leaves the reader as it was when the spline declares
    neither control nor fit points, when one of the coordinate or weight
    lists is longer than the declared count, when the kernel throws on the
    curve, and when the interpolation throws or gives a null handle. *)
Theorem spline_skipped (sd : SplineData) (r : DxfReader) :
  ((sd_control_points sd <= 0)%Z -> (sd_fit_points sd <= 0)%Z ->
     OnReadSpline Geom_BSplineCurve_accepts GeomAPI_Interpolate sd r = r)
  /\ ((0 < sd_control_points sd)%Z ->
      (Z.to_nat (sd_control_points sd) < length (sd_controlx sd)
       \/ Z.to_nat (sd_control_points sd) < length (sd_controly sd)
       \/ Z.to_nat (sd_control_points sd) < length (sd_controlz sd)
       \/ Z.to_nat (sd_control_points sd) < length (sd_weight sd))%nat ->
      OnReadSpline Geom_BSplineCurve_accepts GeomAPI_Interpolate sd r = r)
  /\ ((sd_control_points sd <= 0)%Z -> (0 < sd_fit_points sd)%Z ->
      (Z.to_nat (sd_fit_points sd) < length (sd_fitx sd)
       \/ Z.to_nat (sd_fit_points sd) < length (sd_fity sd)
       \/ Z.to_nat (sd_fit_points sd) < length (sd_fitz sd))%nat ->
      OnReadSpline Geom_BSplineCurve_accepts GeomAPI_Interpolate sd r = r)
  /\ ((0 < sd_control_points sd)%Z ->
      createSplineFromPolesAndKnots Geom_BSplineCurve_accepts sd = Thrown ->
      OnReadSpline Geom_BSplineCurve_accepts GeomAPI_Interpolate sd r = r)
  /\ ((sd_control_points sd <= 0)%Z -> (0 < sd_fit_points sd)%Z ->
      (createInterpolationSpline GeomAPI_Interpolate sd = Thrown
       \/ createInterpolationSpline GeomAPI_Interpolate sd = Returned None) ->
      OnReadSpline Geom_BSplineCurve_accepts GeomAPI_Interpolate sd r = r).
Proof.
  unfold OnReadSpline. refine (conj _ (conj _ (conj _ (conj _ _)))).
  - intros Hc Hf.
    apply Z.ltb_ge in Hc, Hf. rewrite Hc, Hf. reflexivity.
  - intros Hc Hlen. apply Z.ltb_lt in Hc. rewrite Hc.
    unfold createSplineFromPolesAndKnots.
    replace (_ || _) with true; [reflexivity|]. symmetry.
    destruct Hlen as [H|[H|[H|H]]]; apply Nat.ltb_lt in H; rewrite H;
      rewrite ?orb_true_r; reflexivity.
  - intros Hc Hf Hlen. apply Z.ltb_ge in Hc. apply Z.ltb_lt in Hf. rewrite Hc, Hf.
    unfold createInterpolationSpline.
    replace (_ || _) with true; [reflexivity|]. symmetry.
    destruct Hlen as [H|[H|H]]; apply Nat.ltb_lt in H; rewrite H;
      rewrite ?orb_true_r; reflexivity.
  - intros Hc Hthrown. apply Z.ltb_lt in Hc. rewrite Hc, Hthrown. reflexivity.
  - intros Hc Hf Hnone. apply Z.ltb_ge in Hc. apply Z.ltb_lt in Hf. rewrite Hc, Hf.
    destruct Hnone as [-> | ->]; reflexivity.
Qed.

End SplineFacts.

(** A segment from the origin to (1,2,3) as a spline of degree 1: two
    control points, the knots 0, 0, 1, 1, no weights. *)
Definition segmentSpline : SplineData :=
  {| sd_degree := 1; sd_control_points := 2; sd_fit_points := 0; sd_flag := 0;
     sd_knot := [0; 0; 1; 1]; sd_weight := [];
     sd_controlx := [0; 1]; sd_controly := [0; 2]; sd_controlz := [0; 3];
     sd_fitx := []; sd_fity := []; sd_fitz := [] |}.

Definition segmentCurve : Geom_BSplineCurve :=
  {| BSpline_poles := [gp_Pnt_origin; {| Pnt_X := 1; Pnt_Y := 2; Pnt_Z := 3 |}];
     BSpline_weights := [1; 1];
     BSpline_knots := [0; 1];
     BSpline_mults := [2%nat; 2%nat];
     BSpline_degree := 1;
     BSpline_periodic := false |}.

Lemma segmentSpline_curve :
  createSplineFromPolesAndKnots (fun _ => true) segmentSpline = Returned (Some segmentCurve).
Proof. reflexivity. Qed.

Lemma spline_poles_witness :
  length (BSpline_poles segmentCurve) = 2%nat
  /\ BSpline_poles segmentCurve !! 1%nat = Some {| Pnt_X := 1; Pnt_Y := 2; Pnt_Z := 3 |}.
Proof.
  destruct (spline_poles (fun _ => true) segmentSpline segmentCurve 1 segmentSpline_curve)
    as [Hlen Hpole].
  split; [exact Hlen | apply Hpole; simpl; lia].
Defined.

Lemma spline_knots_weights_witness :
  increasing (BSpline_knots segmentCurve)
  /\ BSpline_weights segmentCurve = replicate 2 1.
Proof.
  destruct (spline_knots_weights (fun _ => true) segmentSpline segmentCurve
              segmentSpline_curve) as (Hinc & _ & _ & _ & _ & Hw).
  split; [exact Hinc | apply Hw; simpl; lia].
Defined.

(** The segment with a third x coordinate is skipped. *)
Lemma spline_skipped_witness :
  OnReadSpline (fun _ => true) (fun _ _ _ => Thrown)
    {| sd_degree := 1; sd_control_points := 2; sd_fit_points := 0; sd_flag := 0;
       sd_knot := [0; 0; 1; 1]; sd_weight := [];
       sd_controlx := [0; 1; 2]; sd_controly := [0; 2]; sd_controlz := [0; 3];
       sd_fitx := []; sd_fity := []; sd_fitz := [] |} layerZeroReader
  = layerZeroReader.
Proof.
  match goal with |- OnReadSpline _ _ ?sd ?r = _ =>
    destruct (spline_skipped (fun _ => true) (fun _ _ _ => Thrown) sd r) as (_ & Hlong & _)
  end.
  apply Hlong; [reflexivity | left; simpl; lia].
Defined.

(** *** Block inserts, continued *)

Section InsertFacts.
Variables cos sin : float -> float.

(** The layers [OnReadInsert] takes for the block [name]. *)
Definition isBlockLayer (name : string) (k : string) : bool :=
  String.eqb (substring 0 (String.length ("BLOCKS " ++ name ++ " ")) k)
             ("BLOCKS " ++ name ++ " ").

Lemma insertTrsf_scaling (r r' : DxfReader) (point scale : coords) (rotation : float) :
  m_params_scaling r' = m_params_scaling r ->
  insertTrsf cos sin r' point scale rotation = insertTrsf cos sin r point scale rotation.
Proof.
  intros Hs. unfold insertTrsf, toPnt. rewrite Hs. reflexivity.
Qed.

Lemma insertLayer_other (name : string) (point scale : coords) (rotation : float)
    (r : DxfReader) (k : string) :
  isBlockLayer name k = false ->
  insertLayer cos sin ("BLOCKS " ++ name ++ " ") point scale rotation r k = r.
Proof. unfold isBlockLayer, insertLayer. intros ->. reflexivity. Qed.

Lemma insertLayer_block (name : string) (point scale : coords) (rotation : float)
    (r : DxfReader) (k : string) (vecShape : list TopoDS_Shape) :
  isBlockLayer name k = true ->
  m_layers r !! k = Some vecShape ->
  insertLayer cos sin ("BLOCKS " ++ name ++ " ") point scale rotation r k
  = addShape
      (Shape_compound
         (filter (fun shape => Is_true (negb (TopoDS_Shape_IsNull shape))) vecShape)
         (insertTrsf cos sin r point scale rotation)) r.
Proof. unfold isBlockLayer, insertLayer. intros -> ->. reflexivity. Qed.

Lemma insert_loop (name : string) (point scale : coords) (rotation : float)
    (keys : list string) (r : DxfReader) (v : list TopoDS_Shape) :
  (forall k, In k keys -> is_Some (m_layers r !! k)) ->
  m_layers r !! LayerName r = Some v ->
  exists added,
    m_layers (foldl (insertLayer cos sin ("BLOCKS " ++ name ++ " ") point scale rotation)
                r keys) !! LayerName r = Some (v ++ added)
    /\ length added = length (List.filter (isBlockLayer name) keys)
    /\ Forall (fun shape => exists members,
                 shape = Shape_compound members (insertTrsf cos sin r point scale rotation))
              added.
Proof.
  revert r v. induction keys as [|k keys IH]; intros r v Hkeys Hv; simpl.
  - exists []. rewrite app_nil_r. split; [exact Hv|]. split; [reflexivity | constructor].
  - destruct (isBlockLayer name k) eqn:Hk.
    + destruct (Hkeys k (or_introl eq_refl)) as [vecShape Hvec].
      rewrite (insertLayer_block name point scale rotation r k vecShape Hk Hvec).
      set (comp := Shape_compound _ _).
      destruct (addShape_members comp r) as (Hn & _ & Hs & _).
      assert (Hl : m_layers (addShape comp r)
                   = <[ LayerName r := v ++ [comp] ]> (m_layers r))
        by (rewrite addShape_m_layers, Hv; reflexivity).
      destruct (IH (addShape comp r) (v ++ [comp])) as (added & Ha & Hlen & Hall).
      * intros k' Hin. rewrite Hl.
        destruct (decide (LayerName r = k')) as [<-|Hne].
        -- rewrite lookup_insert_eq. eexists; reflexivity.
        -- rewrite lookup_insert_ne by exact Hne. apply Hkeys. right. exact Hin.
      * rewrite Hn, Hl. apply lookup_insert_eq.
      * exists (comp :: added). rewrite Hn in Ha.
        split; [rewrite Ha, <- app_assoc; reflexivity|].
        split; [simpl; rewrite Hlen; reflexivity|].
        constructor; [eexists; reflexivity|].
        rewrite (insertTrsf_scaling r (addShape comp r)) in Hall by exact Hs.
        exact Hall.
    + rewrite (insertLayer_other name point scale rotation r k Hk).
      apply IH; [|exact Hv]. intros k' Hin. apply Hkeys. right. exact Hin.
Qed.

(** X5: with the current layer registered, [OnReadInsert] adds to it one
    shape for each layer of the map whose name starts with "BLOCKS ", the
    block name and a space, after the shapes it held; each is a compound
    located by the transformation of the insert, and when no layer has such
    a name the reader is left as it was, registered layer or not. *)
Theorem insert_one_compound_per_block_layer (point scale : coords) (name : string)
    (rotation : float) (r : DxfReader) :
  (forall v, m_layers r !! LayerName r = Some v ->
     exists added,
       m_layers (OnReadInsert cos sin point scale name rotation r) !! LayerName r
         = Some (v ++ added)
       /\ length added
          = length (List.filter (isBlockLayer name) (map fst (map_to_list (m_layers r))))
       /\ Forall (fun shape => exists members,
                    shape = Shape_compound members
                              (insertTrsf cos sin r point scale rotation))
                 added)
  /\ ((forall k, is_Some (m_layers r !! k) -> isBlockLayer name k = false) ->
      OnReadInsert cos sin point scale name rotation r = r).
Proof.
  assert (Hkeys : forall k, In k (map fst (map_to_list (m_layers r))) ->
                            is_Some (m_layers r !! k)).
  { intros k Hin. apply in_map_iff in Hin as ([k' x] & <- & Hin).
    apply list_elem_of_In, elem_of_map_to_list in Hin. simpl. rewrite Hin.
    eexists; reflexivity. }
  split.
  - intros v Hv. unfold OnReadInsert. apply insert_loop; assumption.
  - intros Hnone. unfold OnReadInsert.
    revert Hkeys. generalize (map fst (map_to_list (m_layers r))) as keys.
    induction keys as [|k keys IH]; intros Hkeys; simpl; [reflexivity|].
    rewrite insertLayer_other by (apply Hnone, Hkeys; left; reflexivity).
    apply IH. intros k' Hin. apply Hkeys. right. exact Hin.
Qed.

End InsertFacts.

(** The block "b" of [blockReader] has one layer; the block "c" has
    none. *)
Lemma insert_one_compound_per_block_layer_witness :
  (exists added,
     m_layers (OnReadInsert (fun _ => 1) (fun _ => 0) (1, 0, 0) (2, 2, 2) "b" 0 blockReader)
       !! "0"%string = Some added
     /\ length added = 1%nat)
  /\ OnReadInsert (fun _ => 1) (fun _ => 0) (1, 0, 0) (2, 2, 2) "c" 0 blockReader
     = blockReader.
Proof.
  destruct (insert_one_compound_per_block_layer (fun _ => 1) (fun _ => 0)
              (1, 0, 0) (2, 2, 2) "b" 0 blockReader) as [Hadd _].
  destruct (insert_one_compound_per_block_layer (fun _ => 1) (fun _ => 0)
              (1, 0, 0) (2, 2, 2) "c" 0 blockReader) as [_ Hnone].
  split.
  - destruct (Hadd [] eq_refl) as (added & Hl & Hlen & _).
    exists added. split; [exact Hl | rewrite Hlen; reflexivity].
  - apply Hnone. intros k Hk. apply elem_of_dom in Hk.
    unfold blockReader, m_layers in Hk.
    rewrite dom_insert_L, dom_singleton_L in Hk.
    apply elem_of_union in Hk as [Hk|Hk]; apply elem_of_singleton in Hk; subst k;
      reflexivity.
Defined.

(** *** The document *)

(** The shapes reach the document only from a layer that is not a block
    layer, and only when layers are not grouped. *)
Definition keepsOutOfDocument (r : DxfReader) : bool :=
  m_groupLayers r || String.eqb (substring 0 6 (LayerName r)) "BLOCKS".

Lemma addShape_document (shape : TopoDS_Shape) (r : DxfReader) :
  document (addShape shape r)
  = if keepsOutOfDocument r then document r else document r ++ [shape].
Proof.
  destruct r as [scaling annotations grouped layers name doc].
  unfold addShape, keepsOutOfDocument; simpl.
  destruct (layers !! name) as [vecShape|]; simpl;
    destruct grouped; simpl; try reflexivity;
    destruct (String.eqb (substring 0 6 name) "BLOCKS"); reflexivity.
Qed.

Definition documentFrame (r r' : DxfReader) : Prop :=
  LayerName r' = LayerName r
  /\ m_groupLayers r' = m_groupLayers r
  /\ (keepsOutOfDocument r = true -> document r' = document r).

Lemma documentFrame_refl (r : DxfReader) : documentFrame r r.
Proof. unfold documentFrame. tauto. Qed.

Lemma documentFrame_trans (r1 r2 r3 : DxfReader) :
  documentFrame r1 r2 -> documentFrame r2 r3 -> documentFrame r1 r3.
Proof.
  intros (Hn & Hg & Hd) (Hn' & Hg' & Hd').
  refine (conj _ (conj _ _)); [congruence | congruence |].
  intros Hk. rewrite Hd'; [apply Hd, Hk|].
  unfold keepsOutOfDocument in *. rewrite Hn, Hg. exact Hk.
Qed.

Lemma addShape_documentFrame (shape : TopoDS_Shape) (r : DxfReader) :
  documentFrame r (addShape shape r).
Proof.
  destruct (addShape_members shape r) as (Hn & Hg & _ & _).
  refine (conj Hn (conj Hg _)). intros Hk. rewrite addShape_document, Hk. reflexivity.
Qed.

Section DocumentFacts.
Variables cos sin : float -> float.
Variable Geom_BSplineCurve_accepts : Geom_BSplineCurve -> bool.
Variable GeomAPI_Interpolate : list gp_Pnt -> bool -> float -> Outcome (option Geom_BSplineCurve).

Lemma OnRead_documentFrame (ev : DxfEvent) (r : DxfReader) :
  documentFrame r (OnRead cos sin Geom_BSplineCurve_accepts GeomAPI_Interpolate ev r).
Proof.
  destruct ev; simpl.
  - unfold OnReadLine.
    destruct (gp_Pnt_IsEqual _ _ _); [apply documentFrame_refl | apply addShape_documentFrame].
  - apply addShape_documentFrame.
  - unfold OnReadText. destruct (m_importAnnotations r); apply documentFrame_refl.
  - unfold OnReadArc.
    destruct (0 <? _); [apply addShape_documentFrame | apply documentFrame_refl].
  - unfold OnReadCircle.
    destruct (0 <? _); [apply addShape_documentFrame | apply documentFrame_refl].
  - unfold OnReadEllipse.
    destruct (0 <? _); [apply addShape_documentFrame | apply documentFrame_refl].
  - unfold OnReadSpline.
    destruct (if (0 <? sd_control_points sd)%Z then _ else _) as [[g|]|];
      [apply addShape_documentFrame | apply documentFrame_refl | apply documentFrame_refl].
  - unfold OnReadInsert.
    generalize (map fst (map_to_list (m_layers r))) as keys.
    intros keys. revert r.
    induction keys as [|k keys IH]; intros r; simpl; [apply documentFrame_refl|].
    eapply documentFrame_trans; [|apply IH].
    unfold insertLayer.
    destruct (negb _); [apply documentFrame_refl|].
    destruct (m_layers r !! k); [|apply documentFrame_refl].
    simpl. apply addShape_documentFrame.
  - apply documentFrame_refl.
Qed.

(** X6: no callback changes the document while layers are grouped or the
    current layer name starts with "BLOCKS".  Otherwise [addShape] appends
    the shape to the document whether the current layer is a key of the
    layer map or not, so a point read in a layer that is not registered is
    in the document and in no layer. *)
Theorem document_receives_ungrouped_shapes (ev : DxfEvent) (shape : TopoDS_Shape)
    (s : coords) (r : DxfReader) :
  (keepsOutOfDocument r = true ->
     document (OnRead cos sin Geom_BSplineCurve_accepts GeomAPI_Interpolate ev r)
     = document r)
  /\ (keepsOutOfDocument r = false ->
      document (addShape shape r) = document r ++ [shape])
  /\ (keepsOutOfDocument r = false ->
      m_layers r !! LayerName r = None ->
      document (OnReadPoint s r) = document r ++ [Shape_vertex (toPnt r s)]
      /\ m_layers (OnReadPoint s r) = m_layers r).
Proof.
  refine (conj _ (conj _ _)).
  - apply OnRead_documentFrame.
  - intros Hk. rewrite addShape_document, Hk. reflexivity.
  - intros Hk Hl. unfold OnReadPoint. rewrite addShape_document, Hk.
    split; [reflexivity|]. rewrite addShape_m_layers, Hl. reflexivity.
Qed.

End DocumentFacts.

(** *** Arcs and ellipses *)

(** X7: an arc whose radius, the distance of the scaled start point to the
    scaled centre, is 0, and an ellipse whose minor radius times the
    scaling factor is 0, leave the reader as it was. *)
Theorem degenerate_arc_ellipse_skipped (r : DxfReader) (dir hidden : bool) :
  (forall s e c,
      (gp_Pnt_Distance (toPnt r s) (toPnt r c) =? 0) = true ->
      OnReadArc s e c dir hidden r = r)
  /\ (forall c major_radius minor_radius rotation start_angle end_angle,
      (minor_radius * m_params_scaling r =? 0) = true ->
      OnReadEllipse c major_radius minor_radius rotation start_angle end_angle dir r = r).
Proof.
  split.
  - intros s e c Hz. unfold OnReadArc; simpl.
    rewrite (eqb_zero_not_positive _ Hz). reflexivity.
  - intros c major_radius minor_radius rotation start_angle end_angle Hz.
    unfold OnReadEllipse; simpl.
    rewrite (eqb_zero_not_positive _ Hz). reflexivity.
Qed.

End IOFacts.

(** A property without a group takes 9 even under a validation that would
    refuse everything: validation is not run. *)
Lemma setValueHelper_no_group_witness :
  setValue Property_hasGroup (fun _ => Result_error "refused") 9%Z detachedProperty
  = (Result_ok, set_m_value 9%Z detachedProperty, [Call_notifyChanged]).
Proof.
  apply (setValueHelper_no_group (fun p => Property_hasGroup (gp_base p))
           (fun _ => Result_error "refused") ptr_m_value 9%Z detachedProperty).
  reflexivity.
Defined.

(** ** The write protocol, continued *)

Section CommitOrRollback.
Context {P T : Type}.
Variable hasGroup : P -> bool.
Variable isValid : P -> Result.
Variable ptrValue : Cell P T.

(** X8: for every property, with a group or without: the result of
    [setValueHelper] is valid exactly when [notifyChanged] was called, and
    then the object holds the new value; when the result is not valid the
    object is what it was before the call.  [isValid] is called at most
    once and never after [notifyChanged]. *)
Theorem setValueHelper_commit_or_rollback (newValue : T) (prop : P) :
  (Result_valid (returned (setValueHelper hasGroup isValid ptrValue newValue prop)) = true ->
     object (setValueHelper hasGroup isValid ptrValue newValue prop)
       = store ptrValue newValue prop
     /\ exists before,
          calls (setValueHelper hasGroup isValid ptrValue newValue prop)
            = before ++ [Call_notifyChanged]
          /\ (before = [] \/ before = [Call_isValid]))
  /\ (Result_valid (returned (setValueHelper hasGroup isValid ptrValue newValue prop)) = false ->
      object (setValueHelper hasGroup isValid ptrValue newValue prop) = prop
      /\ calls (setValueHelper hasGroup isValid ptrValue newValue prop) = [Call_isValid]).
Proof.
  rewrite setValueHelper_unfold.
  destruct (hasGroup prop).
  - destruct (Result_valid (isValid (store ptrValue newValue prop))) eqn:Hv;
      unfold returned, object, calls; simpl; rewrite ?Hv; split; try discriminate.
    + intros _. split; [reflexivity|]. exists [Call_isValid]. split; [reflexivity | tauto].
    + intros _. split; [apply store_back | reflexivity].
  - unfold returned, object, calls; simpl. split; [|discriminate].
    intros _. split; [reflexivity|]. exists []. split; [reflexivity | tauto].
Qed.

End CommitOrRollback.

(** 150 into [percentProperty] is rolled back, 75 is committed. *)
Lemma setValueHelper_commit_or_rollback_witness :
  object (scalar_setValue Property_hasGroup PropertyInt_isValid 150%Z percentProperty)
    = percentProperty
  /\ object (scalar_setValue Property_hasGroup PropertyInt_isValid 75%Z percentProperty)
    = set_scalar_value 75%Z percentProperty.
Proof.
  split.
  - apply (setValueHelper_commit_or_rollback PropertyInt_hasGroup PropertyInt_isValid
             ptr_scalar_value 150%Z percentProperty). reflexivity.
  - apply (setValueHelper_commit_or_rollback PropertyInt_hasGroup PropertyInt_isValid
             ptr_scalar_value 75%Z percentProperty). reflexivity.
Defined.

Section QuantityFacts.
Context {UNIT : Unit} {QVariant : Type} `{QMetaType QVariant (Quantity UNIT)}.
Variable hasGroup : Property -> bool.
Variable isValid : GenericPropertyQuantity UNIT -> Result.

(** X9: a variant that cannot be converted to the quantity type of the
    property is refused by [GenericPropertyQuantity::setValueFromVariant]
    with "Incompatible quantity type"; the property is what it was and
    neither validation nor notification is called; the call succeeds only
    on a convertible variant. *)
Theorem quantity_setValueFromVariant_typed (variant : QVariant)
    (p : GenericPropertyQuantity UNIT) :
  (QVariant_canConvert (T := Quantity UNIT) variant = false ->
     quantity_setValueFromVariant hasGroup isValid variant p
     = (Result_error "Incompatible quantity type", p, []))
  /\ (Result_valid (returned (quantity_setValueFromVariant hasGroup isValid variant p)) = true ->
      QVariant_canConvert (T := Quantity UNIT) variant = true
      /\ m_quantity (object (quantity_setValueFromVariant hasGroup isValid variant p))
         = QVariant_value variant).
Proof.
  unfold quantity_setValueFromVariant.
  destruct (QVariant_canConvert (T := Quantity UNIT) variant) eqn:Hc; split;
    try discriminate; try reflexivity.
  rewrite setQuantity_is_setValueHelper, setValueHelper_unfold.
  destruct (hasGroup (bpq_property p)); [|intros _; split; reflexivity].
  destruct (Result_valid (isValid _)) eqn:Hr; unfold returned, object; cbn [fst snd];
    rewrite ?Hr.
  - intros _. split; reflexivity.
  - discriminate.
Qed.

(** X10: [setQuantityValue(v)] takes [v] as a magnitude in the unit of the
    property: when the call succeeds, [quantityValue()] reads [v] back and
    the unit is the same; when it fails the quantity is the one before. *)
Theorem setQuantityValue_roundtrip (v : float) (p : GenericPropertyQuantity UNIT) :
  (Result_valid (returned (setQuantityValue hasGroup isValid v p)) = true ->
     quantityValue (object (setQuantityValue hasGroup isValid v p)) = v
     /\ quantityUnit (object (setQuantityValue hasGroup isValid v p)) = quantityUnit p)
  /\ (Result_valid (returned (setQuantityValue hasGroup isValid v p)) = false ->
      quantity (object (setQuantityValue hasGroup isValid v p)) = quantity p).
Proof.
  unfold setQuantityValue.
  rewrite setQuantity_is_setValueHelper, setValueHelper_unfold.
  destruct (hasGroup (bpq_property p)).
  - destruct (Result_valid (isValid _)) eqn:Hr; unfold returned, object; cbn [fst snd];
      rewrite ?Hr; split; try discriminate.
    + intros _. split; reflexivity.
    + intros _. reflexivity.
  - unfold returned, object; simpl. split; [|discriminate]. intros _. split; reflexivity.
Qed.

End QuantityFacts.

(** A boxed 9 is not a length; [boundedLength] takes the magnitude 42 and
    refuses 150. *)
Lemma quantity_setValueFromVariant_typed_witness :
  quantity_setValueFromVariant Property_hasGroup quantity_isValid (Boxed_int 9%Z) boundedLength
  = (Result_error "Incompatible quantity type", boundedLength, []).
Proof.
  apply (quantity_setValueFromVariant_typed (QVariant := BoxedValue) Property_hasGroup
           quantity_isValid (Boxed_int 9%Z) boundedLength).
  reflexivity.
Defined.

Lemma setQuantityValue_roundtrip_witness :
  quantityValue (object (setQuantityValue Property_hasGroup quantity_isValid 42%float
                           boundedLength)) = 42%float
  /\ quantity (object (setQuantityValue Property_hasGroup quantity_isValid 150%float
                          boundedLength)) = quantity boundedLength.
Proof.
  split.
  - apply (setQuantityValue_roundtrip Property_hasGroup quantity_isValid 42%float
             boundedLength). reflexivity.
  - apply (setQuantityValue_roundtrip Property_hasGroup quantity_isValid 150%float
             boundedLength). reflexivity.
Defined.

(** ** The view trihedron of [GuiDocument] *)

Section ViewTrihedronFacts.
Context {Bnd_Box : Type}.
Implicit Types d : GuiDocument Bnd_Box.

Lemma toOccCorner_inj (c1 c2 : Qt_Corner) : toOccCorner c1 = toOccCorner c2 -> c1 = c2.
Proof. destruct c1, c2; simpl; intros Heq; try reflexivity; discriminate. Qed.

Lemma setViewTrihedronMode_members (occ_7_4 : bool) (mode : ViewTrihedronMode) d :
  mode <> m_viewTrihedronMode d ->
  m_viewTrihedronMode (fst (setViewTrihedronMode occ_7_4 mode d)) = mode
  /\ m_viewTrihedronCorner (fst (setViewTrihedronMode occ_7_4 mode d)) = m_viewTrihedronCorner d
  /\ m_vecGraphicsEntity (fst (setViewTrihedronMode occ_7_4 mode d)) = m_vecGraphicsEntity d
  /\ m_gpxBoundingBox (fst (setViewTrihedronMode occ_7_4 mode d)) = m_gpxBoundingBox d.
Proof.
  intros Hne. unfold setViewTrihedronMode. rewrite decide_False by exact Hne.
  destruct mode; simpl; [tauto | tauto |].
  destruct (m_aisViewCube d); [simpl; tauto|]. destruct occ_7_4; simpl; tauto.
Qed.

(** X11: [setViewTrihedronMode] with the mode the document is in changes
    nothing, calls nothing and emits nothing.  With another mode it stores
    the mode, keeps the corner, the entities and the bounding box, and
    emits [viewTrihedronModeChanged(mode)] once, as its last effect; a
    second call with the same mode then does nothing. *)
Theorem setViewTrihedronMode_once (occ_7_4 : bool) (mode : ViewTrihedronMode) d :
  (mode = m_viewTrihedronMode d -> setViewTrihedronMode occ_7_4 mode d = (d, []))
  /\ (mode <> m_viewTrihedronMode d ->
      m_viewTrihedronMode (fst (setViewTrihedronMode occ_7_4 mode d)) = mode
      /\ m_viewTrihedronCorner (fst (setViewTrihedronMode occ_7_4 mode d))
         = m_viewTrihedronCorner d
      /\ m_vecGraphicsEntity (fst (setViewTrihedronMode occ_7_4 mode d))
         = m_vecGraphicsEntity d
      /\ (exists before,
            snd (setViewTrihedronMode occ_7_4 mode d)
              = before ++ [emit_viewTrihedronModeChanged mode]
            /\ forallb (fun e => negb (isSignal e)) before = true)
      /\ setViewTrihedronMode occ_7_4 mode (fst (setViewTrihedronMode occ_7_4 mode d))
         = (fst (setViewTrihedronMode occ_7_4 mode d), [])).
Proof.
  split.
  - intros Heq. unfold setViewTrihedronMode. rewrite decide_True by exact Heq. reflexivity.
  - intros Hne.
    destruct (setViewTrihedronMode_members occ_7_4 mode d Hne) as (Hm & Hc & Hv & _).
    refine (conj Hm (conj Hc (conj Hv (conj _ _)))).
    + unfold setViewTrihedronMode. rewrite decide_False by exact Hne.
      destruct mode; simpl.
      * eexists [_; _]. split; reflexivity.
      * eexists [_; _]. split; reflexivity.
      * destruct (m_aisViewCube d); [eexists [_; _]; split; reflexivity|].
        destruct occ_7_4; [eexists [_; _; _] | eexists [_; _]]; split; reflexivity.
    + unfold setViewTrihedronMode at 1. rewrite decide_True by (symmetry; exact Hm).
      reflexivity.
Qed.

(** X12: after a change of mode the effects show one trihedron at most:
    the Z-buffer trihedron is displayed, at the stored corner, exactly when
    the new mode is [V3dViewZBuffer], and erased otherwise; the view cube is
    set visible exactly when the new mode is [AisViewCube], and set hidden
    otherwise. *)
Theorem setViewTrihedronMode_exclusive (occ_7_4 : bool) (mode : ViewTrihedronMode) d :
  mode <> m_viewTrihedronMode d ->
  (In (V3dView_TriedronDisplay (toOccCorner (m_viewTrihedronCorner d)))
      (snd (setViewTrihedronMode occ_7_4 mode d))
   <-> mode = ViewTrihedronMode_V3dViewZBuffer)
  /\ (In V3dView_TriedronErase (snd (setViewTrihedronMode occ_7_4 mode d))
      <-> mode <> ViewTrihedronMode_V3dViewZBuffer)
  /\ (forall position,
      In (V3dView_TriedronDisplay position) (snd (setViewTrihedronMode occ_7_4 mode d)) ->
      position = toOccCorner (m_viewTrihedronCorner d))
  /\ (forall cube on,
      In (GfxScene_setObjectVisible_viewCube cube on)
         (snd (setViewTrihedronMode occ_7_4 mode d)) ->
      cube = m_aisViewCube (fst (setViewTrihedronMode occ_7_4 mode d))
      /\ on = bool_decide (mode = ViewTrihedronMode_AisViewCube))
  /\ exists cube,
      In (GfxScene_setObjectVisible_viewCube cube
            (bool_decide (mode = ViewTrihedronMode_AisViewCube)))
         (snd (setViewTrihedronMode occ_7_4 mode d)).
Proof.
  intros Hne. unfold setViewTrihedronMode. rewrite decide_False by exact Hne.
  destruct mode; simpl.
  - refine (conj _ (conj _ (conj _ (conj _ _)))).
    + split; [intros [H|[H|[H|[]]]]; discriminate | discriminate].
    + split; [discriminate | intros _; left; reflexivity].
    + intros position [H|[H|[H|[]]]]; discriminate.
    + intros cube on [H|[H|[H|[]]]]; try discriminate.
      injection H as <- <-. split; reflexivity.
    + eexists. right; left. reflexivity.
  - refine (conj _ (conj _ (conj _ (conj _ _)))).
    + split; [reflexivity | intros _; left; reflexivity].
    + split; [intros [H|[H|[H|[]]]]; discriminate | congruence].
    + intros position [H|[H|[H|[]]]]; try discriminate. injection H as <-. reflexivity.
    + intros cube on [H|[H|[H|[]]]]; try discriminate.
      injection H as <- <-. split; reflexivity.
    + eexists. right; left. reflexivity.
  - destruct (m_aisViewCube d) as [c|]; [|destruct occ_7_4]; simpl;
      (refine (conj _ (conj _ (conj _ (conj _ _))));
       [ split; [intros H; repeat (destruct H as [H|H]; try discriminate); destruct H
                | discriminate]
       | split; [discriminate | intros _; tauto]
       | intros position H; repeat (destruct H as [H|H]; try discriminate); destruct H
       | intros cube on H; repeat (destruct H as [H|H]; try discriminate);
           [injection H as <- <-; split; reflexivity | destruct H]
       | eexists; tauto ]).
Qed.

(** X13: the view cube is made once.  A cube the document has is kept, the
    same, by [setViewTrihedronMode], and kept by [setViewTrihedronCorner],
    which may only move it to the corner asked for; a document without a
    cube gets one only from [setViewTrihedronMode] to [AisViewCube], with a
    kernel of version 7.4 or later, and then at the stored corner. *)
Theorem viewCube_created_once (occ_7_4 : bool) (mode : ViewTrihedronMode)
    (corner : Qt_Corner) d :
  (forall c, m_aisViewCube d = Some c ->
     m_aisViewCube (fst (setViewTrihedronMode occ_7_4 mode d)) = Some c
     /\ ~ In (GfxScene_addObject_viewCube c) (snd (setViewTrihedronMode occ_7_4 mode d))
     /\ (m_aisViewCube (fst (setViewTrihedronCorner corner d)) = Some c
         \/ m_aisViewCube (fst (setViewTrihedronCorner corner d))
            = Some {| ViewCube_corner := toOccCorner corner |}))
  /\ (m_aisViewCube d = None ->
      m_aisViewCube (fst (setViewTrihedronCorner corner d)) = None
      /\ (m_aisViewCube (fst (setViewTrihedronMode occ_7_4 mode d)) = None
          \/ (occ_7_4 = true /\ mode = ViewTrihedronMode_AisViewCube
              /\ m_aisViewCube (fst (setViewTrihedronMode occ_7_4 mode d))
                 = Some {| ViewCube_corner := toOccCorner (m_viewTrihedronCorner d) |}))).
Proof.
  split.
  - intros c Hc. refine (conj _ (conj _ _)).
    + unfold setViewTrihedronMode.
      destruct (decide (mode = m_viewTrihedronMode d)); [exact Hc|].
      destruct mode; simpl; try exact Hc. rewrite Hc. reflexivity.
    + unfold setViewTrihedronMode.
      destruct (decide (mode = m_viewTrihedronMode d)); [intros []|].
      destruct mode; simpl; rewrite ?Hc; simpl;
        intros H; repeat (destruct H as [H|H]; try discriminate); destruct H.
    + unfold setViewTrihedronCorner.
      destruct (decide (corner = m_viewTrihedronCorner d)); [left; exact Hc|].
      destruct (m_viewTrihedronMode d); simpl; [left; exact Hc | left; exact Hc |].
      rewrite Hc. right. reflexivity.
  - intros Hc. split.
    + unfold setViewTrihedronCorner.
      destruct (decide (corner = m_viewTrihedronCorner d)); [exact Hc|].
      destruct (m_viewTrihedronMode d); simpl; try exact Hc. rewrite Hc. reflexivity.
    + unfold setViewTrihedronMode.
      destruct (decide (mode = m_viewTrihedronMode d)); [left; exact Hc|].
      destruct mode; simpl; [left; exact Hc | left; exact Hc |].
      rewrite Hc. destruct occ_7_4; simpl; [right; tauto | left; reflexivity].
Qed.

(** X14: [setViewTrihedronCorner] with the corner the document has changes
    nothing and emits nothing.  With another corner it stores the corner,
    keeps the mode, and emits [viewTrihedronCornerChanged(corner)] once, as
    its last effect; before it, the Z-buffer trihedron is displayed at the
    new corner in mode [V3dViewZBuffer], the cube, if there is one, is moved
    to the new corner in mode [AisViewCube], and nothing is done in mode
    [None]. *)
Theorem setViewTrihedronCorner_once (corner : Qt_Corner) d :
  (corner = m_viewTrihedronCorner d -> setViewTrihedronCorner corner d = (d, []))
  /\ (corner <> m_viewTrihedronCorner d ->
      m_viewTrihedronCorner (fst (setViewTrihedronCorner corner d)) = corner
      /\ m_viewTrihedronMode (fst (setViewTrihedronCorner corner d)) = m_viewTrihedronMode d
      /\ snd (setViewTrihedronCorner corner d)
         = match m_viewTrihedronMode d with
           | ViewTrihedronMode_None => []
           | ViewTrihedronMode_V3dViewZBuffer => [V3dView_TriedronDisplay (toOccCorner corner)]
           | ViewTrihedronMode_AisViewCube =>
               match m_aisViewCube d with
               | Some _ => [ViewCube_SetCorner2d (toOccCorner corner)]
               | None => []
               end
           end ++ [emit_viewTrihedronCornerChanged corner]
      /\ setViewTrihedronCorner corner (fst (setViewTrihedronCorner corner d))
         = (fst (setViewTrihedronCorner corner d), [])).
Proof.
  split.
  - intros Heq. unfold setViewTrihedronCorner. rewrite decide_True by exact Heq. reflexivity.
  - intros Hne.
    assert (Hc : m_viewTrihedronCorner (fst (setViewTrihedronCorner corner d)) = corner).
    { unfold setViewTrihedronCorner. rewrite decide_False by exact Hne.
      destruct (m_viewTrihedronMode d); simpl; try reflexivity.
      destruct (m_aisViewCube d); reflexivity. }
    refine (conj Hc (conj _ (conj _ _))).
    + unfold setViewTrihedronCorner. rewrite decide_False by exact Hne.
      destruct (m_viewTrihedronMode d); simpl; try reflexivity.
      destruct (m_aisViewCube d); reflexivity.
    + unfold setViewTrihedronCorner. rewrite decide_False by exact Hne.
      destruct (m_viewTrihedronMode d); simpl; try reflexivity.
      destruct (m_aisViewCube d); reflexivity.
    + unfold setViewTrihedronCorner at 1. rewrite decide_True by (symmetry; exact Hc).
      reflexivity.
Qed.

(** X15: the corner of the view cube can fall behind the corner of the
    document.  From mode [AisViewCube] with the cube at the corner [a] of
    the document: switch to the Z-buffer trihedron, move to another corner
    [b], switch back to the view cube.  The document is then in mode
    [AisViewCube] at corner [b], and its cube is still at [a]: the cube is
    neither made anew nor moved when the mode changes. *)
Theorem viewCube_corner_stale (occ_7_4 : bool) (a b : Qt_Corner) d :
  a <> b ->
  m_viewTrihedronMode d = ViewTrihedronMode_AisViewCube ->
  m_viewTrihedronCorner d = a ->
  m_aisViewCube d = Some {| ViewCube_corner := toOccCorner a |} ->
  m_viewTrihedronMode
    (fst (setViewTrihedronMode occ_7_4 ViewTrihedronMode_AisViewCube
       (fst (setViewTrihedronCorner b
          (fst (setViewTrihedronMode occ_7_4 ViewTrihedronMode_V3dViewZBuffer d))))))
    = ViewTrihedronMode_AisViewCube
  /\ m_viewTrihedronCorner
    (fst (setViewTrihedronMode occ_7_4 ViewTrihedronMode_AisViewCube
       (fst (setViewTrihedronCorner b
          (fst (setViewTrihedronMode occ_7_4 ViewTrihedronMode_V3dViewZBuffer d))))))
    = b
  /\ m_aisViewCube
    (fst (setViewTrihedronMode occ_7_4 ViewTrihedronMode_AisViewCube
       (fst (setViewTrihedronCorner b
          (fst (setViewTrihedronMode occ_7_4 ViewTrihedronMode_V3dViewZBuffer d))))))
    = Some {| ViewCube_corner := toOccCorner a |}
  /\ toOccCorner a <> toOccCorner b.
Proof.
  intros Hab Hm Hc Hcube.
  unfold setViewTrihedronMode at 2 4 6. rewrite Hm, Hc, Hcube.
  rewrite decide_False by discriminate. simpl.
  unfold setViewTrihedronCorner. simpl. rewrite decide_False by congruence. simpl.
  unfold setViewTrihedronMode. simpl.
  refine (conj eq_refl (conj eq_refl (conj eq_refl _))).
  intros Heq. apply Hab, toOccCorner_inj, Heq.
Qed.

(** X16: the trihedron after the constructor's two calls, on a document
    that starts without a view cube and in another mode than the one asked
    for.  With a kernel of version 7.4 or later the document is in mode
    [AisViewCube] at the top left corner and its cube is at the upper left;
    with an older kernel it is in mode [V3dViewZBuffer] at the bottom left
    corner, has no cube, and the last display of the Z-buffer trihedron is
    at the lower left. *)
Theorem GuiDocument_initTrihedron_result (occ_7_4 : bool) d :
  m_aisViewCube d = None ->
  m_viewTrihedronMode d
    <> (if occ_7_4 then ViewTrihedronMode_AisViewCube else ViewTrihedronMode_V3dViewZBuffer) ->
  (occ_7_4 = true ->
     m_viewTrihedronMode (fst (GuiDocument_initTrihedron occ_7_4 d))
       = ViewTrihedronMode_AisViewCube
     /\ m_viewTrihedronCorner (fst (GuiDocument_initTrihedron occ_7_4 d)) = Qt_TopLeftCorner
     /\ m_aisViewCube (fst (GuiDocument_initTrihedron occ_7_4 d))
        = Some {| ViewCube_corner := Aspect_TOTP_LEFT_UPPER |})
  /\ (occ_7_4 = false ->
      m_viewTrihedronMode (fst (GuiDocument_initTrihedron occ_7_4 d))
        = ViewTrihedronMode_V3dViewZBuffer
      /\ m_viewTrihedronCorner (fst (GuiDocument_initTrihedron occ_7_4 d))
         = Qt_BottomLeftCorner
      /\ m_aisViewCube (fst (GuiDocument_initTrihedron occ_7_4 d)) = None
      /\ exists before after,
           snd (GuiDocument_initTrihedron occ_7_4 d)
             = before ++ V3dView_TriedronDisplay Aspect_TOTP_LEFT_LOWER :: after
           /\ forall position, ~ In (V3dView_TriedronDisplay position) after).
Proof.
  intros Hcube Hmode. split; intros ->.
  - unfold GuiDocument_initTrihedron, setViewTrihedronMode.
    rewrite decide_False by (intros Heq; apply Hmode; symmetry; exact Heq).
    rewrite Hcube. simpl.
    unfold setViewTrihedronCorner. simpl.
    destruct (decide (Qt_TopLeftCorner = m_viewTrihedronCorner d)) as [<-|Hne]; simpl.
    + repeat split; reflexivity.
    + repeat split; reflexivity.
  - unfold GuiDocument_initTrihedron, setViewTrihedronMode.
    rewrite decide_False by (intros Heq; apply Hmode; symmetry; exact Heq).
    simpl. unfold setViewTrihedronCorner. simpl.
    destruct (decide (Qt_BottomLeftCorner = m_viewTrihedronCorner d)) as [Heq|Hne]; simpl.
    + refine (conj eq_refl (conj (eq_sym Heq) (conj Hcube _))).
      exists [], [GfxScene_setObjectVisible_viewCube (m_aisViewCube d) false;
                  emit_viewTrihedronModeChanged ViewTrihedronMode_V3dViewZBuffer].
      rewrite <- Heq. split; [reflexivity|].
      intros position [H|[H|[]]]; discriminate.
    + refine (conj eq_refl (conj eq_refl (conj Hcube _))).
      exists [V3dView_TriedronDisplay (toOccCorner (m_viewTrihedronCorner d));
              GfxScene_setObjectVisible_viewCube (m_aisViewCube d) false;
              emit_viewTrihedronModeChanged ViewTrihedronMode_V3dViewZBuffer],
             [emit_viewTrihedronCornerChanged Qt_BottomLeftCorner].
      split; [reflexivity|].
      intros position [H|[]]; discriminate.
Qed.

End ViewTrihedronFacts.

(** ** The graphics entities of [GuiDocument] *)

Lemma list_find_delete_other {A : Type} (P : A -> Prop) `{forall x, Decision (P x)}
    (l : list A) (i : nat) :
  (forall x, l !! i = Some x -> ~ P x) ->
  snd <$> list_find P (delete i l) = snd <$> list_find P l.
Proof.
  revert i. induction l as [|a l IH]; intros i Hi; [reflexivity|].
  destruct i as [|i]; simpl.
  - rewrite decide_False by (apply Hi; reflexivity).
    destruct (list_find P l) as [[j x]|]; reflexivity.
  - destruct (decide (P a)); [reflexivity|].
    specialize (IH i Hi).
    destruct (list_find P (delete i l)) as [[j x]|], (list_find P l) as [[j' x']|];
      simpl in *; congruence.
Qed.

Section EntityFacts.
Context {Bnd_Box : Type}.
Variable Bnd_Box_void : Bnd_Box.
Variable BndUtils_add : Bnd_Box -> Bnd_Box -> Bnd_Box.
Variable AisObject_boundingBox : GraphicsObjectPtr -> Bnd_Box.
Implicit Types d : GuiDocument Bnd_Box.

Lemma findGraphicsEntity_Some (entityTreeNodeId : TreeNodeId) d (i : nat)
    (item : GraphicsEntity) :
  findGraphicsEntity entityTreeNodeId d = Some (i, item) ->
  m_vecGraphicsEntity d !! i = Some item
  /\ treeNodeId item = entityTreeNodeId
  /\ forall j other, m_vecGraphicsEntity d !! j = Some other -> (j < i)%nat ->
                     treeNodeId other <> entityTreeNodeId.
Proof. unfold findGraphicsEntity. intros Hf. apply list_find_Some in Hf. exact Hf. Qed.

(** X17: [onDocumentEntityAboutToBeDestroyed] on a node that no entity
    has leaves the document as it was and has no effect: nothing is erased
    or redrawn, the bounding box is not recomputed and
    [graphicsBoundingBoxChanged] is not emitted.  On a node some entity has,
    it takes out the first entity with that node and no other, erases the
    graphics objects of that entity in their order, redraws, and emits
    [graphicsBoundingBoxChanged] once, last, with the box it stores: the
    box of the objects of the entities left, built from the void box,
    whatever the box before was. *)
Theorem entity_destroyed (entityTreeNodeId : TreeNodeId) d :
  (Forall (fun item => treeNodeId item <> entityTreeNodeId) (m_vecGraphicsEntity d) ->
     onDocumentEntityAboutToBeDestroyed Bnd_Box_void BndUtils_add AisObject_boundingBox
       entityTreeNodeId d = (d, []))
  /\ (forall i item,
      findGraphicsEntity entityTreeNodeId d = Some (i, item) ->
      m_vecGraphicsEntity d !! i = Some item
      /\ treeNodeId item = entityTreeNodeId
      /\ m_vecGraphicsEntity
           (fst (onDocumentEntityAboutToBeDestroyed Bnd_Box_void BndUtils_add
                   AisObject_boundingBox entityTreeNodeId d))
         = delete i (m_vecGraphicsEntity d)
      /\ S (length (m_vecGraphicsEntity
                      (fst (onDocumentEntityAboutToBeDestroyed Bnd_Box_void BndUtils_add
                              AisObject_boundingBox entityTreeNodeId d))))
         = length (m_vecGraphicsEntity d)
      /\ m_gpxBoundingBox
           (fst (onDocumentEntityAboutToBeDestroyed Bnd_Box_void BndUtils_add
                   AisObject_boundingBox entityTreeNodeId d))
         = recomputeBoundingBox Bnd_Box_void BndUtils_add AisObject_boundingBox
             (delete i (m_vecGraphicsEntity d))
      /\ snd (onDocumentEntityAboutToBeDestroyed Bnd_Box_void BndUtils_add
                AisObject_boundingBox entityTreeNodeId d)
         = map GfxScene_eraseObject (vecGfxObject item)
           ++ [GfxScene_redraw;
               emit_graphicsBoundingBoxChanged
                 (recomputeBoundingBox Bnd_Box_void BndUtils_add AisObject_boundingBox
                    (delete i (m_vecGraphicsEntity d)))]).
Proof.
  split.
  - intros Hnone. unfold onDocumentEntityAboutToBeDestroyed, findGraphicsEntity.
    rewrite (proj2 (list_find_None _ _) Hnone). reflexivity.
  - intros i item Hf.
    destruct (findGraphicsEntity_Some _ _ _ _ Hf) as (Hl & Hid & _).
    unfold onDocumentEntityAboutToBeDestroyed. rewrite Hf. simpl.
    refine (conj Hl (conj Hid (conj eq_refl (conj _ (conj eq_refl eq_refl))))).
    rewrite length_delete by (eexists; exact Hl).
    pose proof (lookup_lt_Some _ _ _ Hl). lia.
Qed.

(** X18: after [onDocumentEntityAboutToBeDestroyed] on a node,
    [findGraphicsEntity] finds for every other node the entity it found
    before; and when the entities have different nodes, it finds none for
    the node destroyed. *)
Theorem entity_destroyed_lookup (entityTreeNodeId other : TreeNodeId) d :
  (other <> entityTreeNodeId ->
     snd <$> findGraphicsEntity other
               (fst (onDocumentEntityAboutToBeDestroyed Bnd_Box_void BndUtils_add
                       AisObject_boundingBox entityTreeNodeId d))
     = snd <$> findGraphicsEntity other d)
  /\ (NoDup (map treeNodeId (m_vecGraphicsEntity d)) ->
      findGraphicsEntity entityTreeNodeId
        (fst (onDocumentEntityAboutToBeDestroyed Bnd_Box_void BndUtils_add
                AisObject_boundingBox entityTreeNodeId d))
      = None).
Proof.
  unfold onDocumentEntityAboutToBeDestroyed.
  destruct (findGraphicsEntity entityTreeNodeId d) as [[i item]|] eqn:Hf.
  - destruct (findGraphicsEntity_Some _ _ _ _ Hf) as (Hl & Hid & _).
    unfold findGraphicsEntity; simpl. split.
    + intros Hne. apply list_find_delete_other.
      intros x Hx. rewrite Hl in Hx. injection Hx as <-. congruence.
    + intros Hnodup. apply list_find_None, Forall_forall.
      intros x Hx Heq.
      apply list_elem_of_lookup in Hx as [j Hj].
      assert (Hj' : exists j', j' <> i /\ m_vecGraphicsEntity d !! j' = Some x).
      { destruct (decide (j < i)%nat).
        - exists j. split; [lia|]. rewrite list_lookup_delete_lt in Hj by lia. exact Hj.
        - exists (S j). split; [lia|]. rewrite list_lookup_delete_ge in Hj by lia. exact Hj. }
      destruct Hj' as (j' & Hne & Hj').
      apply Hne.
      apply (NoDup_lookup (map treeNodeId (m_vecGraphicsEntity d)) j' i (treeNodeId x)).
      * exact Hnodup.
      * change (map treeNodeId (m_vecGraphicsEntity d)) with (treeNodeId <$> m_vecGraphicsEntity d).
        rewrite list_lookup_fmap, Hj'. reflexivity.
      * change (map treeNodeId (m_vecGraphicsEntity d)) with (treeNodeId <$> m_vecGraphicsEntity d).
        rewrite list_lookup_fmap, Hl. simpl. congruence.
  - split; [reflexivity|]. intros _. exact Hf.
Qed.

End EntityFacts.

(** The view trihedron of [startDocument] and [cubeDocument]. *)

Lemma setViewTrihedronMode_exclusive_witness :
  In (V3dView_TriedronDisplay Aspect_TOTP_RIGHT_LOWER)
     (snd (setViewTrihedronMode true ViewTrihedronMode_V3dViewZBuffer startDocument))
  /\ ~ In V3dView_TriedronErase
       (snd (setViewTrihedronMode true ViewTrihedronMode_V3dViewZBuffer startDocument)).
Proof.
  assert (Hne : ViewTrihedronMode_V3dViewZBuffer <> m_viewTrihedronMode startDocument)
    by discriminate.
  destruct (setViewTrihedronMode_exclusive true ViewTrihedronMode_V3dViewZBuffer
              startDocument Hne) as (Hdisplay & Herase & _).
  split.
  - apply Hdisplay. reflexivity.
  - intros Hin. apply Herase in Hin. apply Hin. reflexivity.
Defined.

Lemma viewCube_corner_stale_witness :
  m_viewTrihedronCorner
    (fst (setViewTrihedronMode true ViewTrihedronMode_AisViewCube
       (fst (setViewTrihedronCorner Qt_BottomRightCorner
          (fst (setViewTrihedronMode true ViewTrihedronMode_V3dViewZBuffer cubeDocument))))))
    = Qt_BottomRightCorner
  /\ m_aisViewCube
    (fst (setViewTrihedronMode true ViewTrihedronMode_AisViewCube
       (fst (setViewTrihedronCorner Qt_BottomRightCorner
          (fst (setViewTrihedronMode true ViewTrihedronMode_V3dViewZBuffer cubeDocument))))))
    = Some {| ViewCube_corner := Aspect_TOTP_LEFT_UPPER |}.
Proof.
  assert (Hab : Qt_TopLeftCorner <> Qt_BottomRightCorner) by discriminate.
  destruct (viewCube_corner_stale true Qt_TopLeftCorner Qt_BottomRightCorner cubeDocument
              Hab eq_refl eq_refl eq_refl) as (_ & Hcorner & Hcube & _).
  split; [exact Hcorner | exact Hcube].
Defined.

Lemma GuiDocument_initTrihedron_result_witness :
  m_viewTrihedronMode (fst (GuiDocument_initTrihedron true startDocument))
    = ViewTrihedronMode_AisViewCube
  /\ m_aisViewCube (fst (GuiDocument_initTrihedron true startDocument))
     = Some {| ViewCube_corner := Aspect_TOTP_LEFT_UPPER |}.
Proof.
  assert (Hne : m_viewTrihedronMode startDocument <> ViewTrihedronMode_AisViewCube)
    by discriminate.
  destruct (GuiDocument_initTrihedron_result true startDocument eq_refl Hne) as [Hnew _].
  destruct (Hnew eq_refl) as (Hmode & _ & Hcube).
  split; [exact Hmode | exact Hcube].
Defined.

(** Node 1 destroyed in [startDocument]: objects 10 and 11 are erased, the
    entity of node 2 is left and the box is that of object 20; node 3 is
    not there. *)
Lemma entity_destroyed_witness :
  onDocumentEntityAboutToBeDestroyed [] (fun box other => box ++ other) (fun o => [o])
    3 startDocument = (startDocument, [])
  /\ snd (onDocumentEntityAboutToBeDestroyed [] (fun box other => box ++ other)
            (fun o => [o]) 1 startDocument)
     = [GfxScene_eraseObject 10%positive; GfxScene_eraseObject 11%positive;
        GfxScene_redraw; emit_graphicsBoundingBoxChanged [20%positive]].
Proof.
  destruct (entity_destroyed [] (fun box other => box ++ other) (fun o => [o])
              3 startDocument) as [Hnone _].
  destruct (entity_destroyed [] (fun box other => box ++ other) (fun o => [o])
              1 startDocument) as [_ Hsome].
  split.
  - apply Hnone. repeat constructor; discriminate.
  - destruct (Hsome 0%nat _ eq_refl) as (_ & _ & _ & _ & _ & Heff). exact Heff.
Defined.

Lemma entity_destroyed_lookup_witness :
  snd <$> findGraphicsEntity 2
            (fst (onDocumentEntityAboutToBeDestroyed [] (fun box other => box ++ other)
                    (fun o => [o]) 1 startDocument))
    = Some {| treeNodeId := 2; vecGfxObject := [20%positive] |}
  /\ findGraphicsEntity 1
       (fst (onDocumentEntityAboutToBeDestroyed [] (fun box other => box ++ other)
               (fun o => [o]) 1 startDocument))
     = None.
Proof.
  destruct (entity_destroyed_lookup [] (fun box other => box ++ other) (fun o => [o])
              1 2 startDocument) as [Hother Hgone].
  split.
  - rewrite Hother by discriminate. reflexivity.
  - apply Hgone. simpl. apply NoDup_cons_2; [set_solver | apply NoDup_singleton].
Defined.

End Mayo.
